(** * go-altcoinchain: the ethash difficulty, verification and reward engine

    A shallow embedding of [consensus/ethash/consensus.go] and of the
    participant registries ([PoS], [PoT]) that accompany it, together with the
    properties the design document states about them.

    Conventions.
    - [big.Int] values are [Z]; [big.Int.Div] is Euclidean division, which
      agrees with [Z.div] for the positive divisors the code uses.
    - [uint64] values are [Z] in [0, 2^64); every arithmetic step the code
      performs on a [uint64] is written with its wrap-around ([wrap64]).
    - [common.Hash], [common.Address] and byte slices are [list byte].
    - Go maps are [gmap]s, [mapset] sets are [gset]s.
    - A Go [error] result is [option error], [None] being [nil]. *)

From Stdlib Require Import ZArith Lia List Bool String.
From Stdlib Require Import Init.Byte.
From stdpp Require Import base decidable countable option list gmap.

Local Open Scope Z_scope.

#[local] Set Warnings "-clear-no-such-hyp".

(* ===================================================================== *)
(** ** Bytes, hashes, addresses *)
(* ===================================================================== *)

#[global] Instance byte_eq_dec : EqDecision byte := Byte.byte_eq_dec.

Definition byte_of_N (n : N) : byte := default x00 (Byte.of_N n).

Lemma byte_of_to_N (b : byte) : byte_of_N (Byte.to_N b) = b.
Proof. unfold byte_of_N. now rewrite Byte.of_to_N. Qed.

#[global] Instance byte_countable : Countable byte :=
  inj_countable' Byte.to_N byte_of_N byte_of_to_N.

Module common.
Abbreviation Hash := (list byte) (only parsing).
Abbreviation Address := (list byte) (only parsing).
End common.
Export common.

Definition uint64_modulus : Z := 2 ^ 64.

(** Arithmetic on [uint64] wraps around. *)
Definition wrap64 (z : Z) : Z := z mod uint64_modulus.

(** [big.Int.Uint64]: the low 64 bits of the magnitude. *)
Definition Uint64 (z : Z) : Z := Z.abs z mod uint64_modulus.

(** [big.Int.SetBytes]: a byte slice read as a big-endian unsigned integer. *)
Definition SetBytes (buf : list byte) : Z :=
  fold_left (fun acc b => acc * 256 + Z.of_N (Byte.to_N b)) buf 0.

(** [math.BigMax]. *)
Definition BigMax (x y : Z) : Z := if x <? y then y else x.

(* ===================================================================== *)
(** ** Package [types]: headers and blocks *)
(* ===================================================================== *)

Module types.

Record Header := mkHeader {
  ParentHash : Hash;
  UncleHash : Hash;
  Coinbase : Address;
  Difficulty : Z;            (* big.Int *)
  Number : Z;                (* big.Int *)
  GasLimit : Z;              (* uint64 *)
  GasUsed : Z;               (* uint64 *)
  Time : Z;                  (* uint64 *)
  Extra : list byte;
  MixDigest : Hash;
  Nonce : Z;                 (* BlockNonce, read through Uint64() *)
  BaseFee : option Z         (* big.Int, nil before London *)
}.

(** A block as the engine reads it: its header and its uncle headers. *)
Record Block := mkBlock {
  BlockHeader : Header;
  Uncles : list Header
}.

(** Modelled from the spec: [types.EmptyUncleHash] is declared in package
    [core/types], which is not part of the sources at hand; it is the hash
    of the empty uncle list, a fixed 32-byte constant. *)
Definition EmptyUncleHash : Hash :=
  [x1d; xcc; x4d; xe8; xde; xc7; x5d; x7a; xab; x85; xb5; x67; xb6; xcc; xd4; x1a;
   xd3; x12; x45; x1b; x94; x8a; x74; x13; xf0; xa1; x42; xfd; x40; xd4; x93; x47]%byte.

End types.
Export types.

(* ===================================================================== *)
(** ** Package [params]: protocol constants and the chain configuration *)
(* ===================================================================== *)

Module params.

(** Modelled from the spec: package [params] is not part of the sources at
    hand.  The three difficulty constants are the ones the sibling
    [uint256] calculators of package ethash declare for themselves
    ([minimumDifficulty = 131072], [difficultyBoundDivisor = 11] as a shift,
    [frontierDurationLimit = 13]); the design document names the bound
    divisor 2048 and the Frontier threshold 13. *)
Definition MinimumDifficulty : Z := 131072.
Definition DifficultyBoundDivisor : Z := 2048.
Definition DurationLimit : Z := 13.

(** Modelled from the spec: the fork-activation block numbers of
    [params.ChainConfig]; a fork without activation block is [None]. *)
Record ChainConfig := mkChainConfig {
  HomesteadBlock : option Z;
  ByzantiumBlock : option Z;
  ConstantinopleBlock : option Z;
  MuirGlacierBlock : option Z;
  LondonBlock : option Z;
  ArrowGlacierBlock : option Z;
  GrayGlacierBlock : option Z;
  EthPoWForkBlock : option Z
}.

(** Modelled from the spec: an epoch is active at a block number when its
    activation block is configured and is at most that number. *)
Definition isForked (s : option Z) (head : Z) : bool :=
  match s with
  | None => false
  | Some s => s <=? head
  end.

Definition IsHomestead (c : ChainConfig) (num : Z) : bool := isForked (HomesteadBlock c) num.
Definition IsByzantium (c : ChainConfig) (num : Z) : bool := isForked (ByzantiumBlock c) num.
Definition IsConstantinople (c : ChainConfig) (num : Z) : bool := isForked (ConstantinopleBlock c) num.
Definition IsMuirGlacier (c : ChainConfig) (num : Z) : bool := isForked (MuirGlacierBlock c) num.
Definition IsLondon (c : ChainConfig) (num : Z) : bool := isForked (LondonBlock c) num.
Definition IsArrowGlacier (c : ChainConfig) (num : Z) : bool := isForked (ArrowGlacierBlock c) num.
Definition IsGrayGlacier (c : ChainConfig) (num : Z) : bool := isForked (GrayGlacierBlock c) num.
Definition IsEthPoWFork (c : ChainConfig) (num : Z) : bool := isForked (EthPoWForkBlock c) num.

End params.
Export params.

(* ===================================================================== *)
(** ** The difficulty calculators of [consensus.go] *)
(* ===================================================================== *)

Definition expDiffPeriod : Z := 100000.
Definition bigMinus99 : Z := -99.

(** [calcDifficultyEthPoW]: the Byzantium adjustment without the bomb. *)
Definition calcDifficultyEthPoW (time : Z) (parent : Header) : Z :=
  let bigTime := time in
  let bigParentTime := Time parent in
  let x := bigTime - bigParentTime in
  let x := x / 9 in
  let x := if decide (UncleHash parent = EmptyUncleHash) then 1 - x else 2 - x in
  let x := if x <? bigMinus99 then bigMinus99 else x in
  let y := Difficulty parent / DifficultyBoundDivisor in
  let x := y * x in
  let x := Difficulty parent + x in
  let x := if x <? MinimumDifficulty then MinimumDifficulty else x in
  x.

(** [makeDifficultyCalculator bombDelay]: Byzantium rules with a delayed bomb. *)
Definition makeDifficultyCalculator (bombDelay : Z) (time : Z) (parent : Header) : Z :=
  let bombDelayFromParent := bombDelay - 1 in
  let bigTime := time in
  let bigParentTime := Time parent in
  let x := bigTime - bigParentTime in
  let x := x / 9 in
  let x := if decide (UncleHash parent = EmptyUncleHash) then 1 - x else 2 - x in
  let x := if x <? bigMinus99 then bigMinus99 else x in
  let y := Difficulty parent / DifficultyBoundDivisor in
  let x := y * x in
  let x := Difficulty parent + x in
  let x := if x <? MinimumDifficulty then MinimumDifficulty else x in
  let fakeBlockNumber :=
    if bombDelayFromParent <=? Number parent
    then Number parent - bombDelayFromParent
    else 0 in
  let periodCount := fakeBlockNumber / expDiffPeriod in
  if 1 <? periodCount
  then
    let y := periodCount - 2 in
    let y := 2 ^ y in
    x + y
  else x.

Definition calcDifficultyEip5133 := makeDifficultyCalculator 11400000.
Definition calcDifficultyEip4345 := makeDifficultyCalculator 10700000.
Definition calcDifficultyEip3554 := makeDifficultyCalculator 9700000.
Definition calcDifficultyEip2384 := makeDifficultyCalculator 9000000.
Definition calcDifficultyConstantinople := makeDifficultyCalculator 5000000.
Definition calcDifficultyByzantium := makeDifficultyCalculator 3000000.

(** [calcDifficultyHomestead]. *)
Definition calcDifficultyHomestead (time : Z) (parent : Header) : Z :=
  let bigTime := time in
  let bigParentTime := Time parent in
  let x := bigTime - bigParentTime in
  let x := x / 10 in
  let x := 1 - x in
  let x := if x <? bigMinus99 then bigMinus99 else x in
  let y := Difficulty parent / DifficultyBoundDivisor in
  let x := y * x in
  let x := Difficulty parent + x in
  let x := if x <? MinimumDifficulty then MinimumDifficulty else x in
  let periodCount := Number parent + 1 in
  let periodCount := periodCount / expDiffPeriod in
  if 1 <? periodCount
  then
    let y := periodCount - 2 in
    let y := 2 ^ y in
    x + y
  else x.

(** [calcDifficultyFrontier]. *)
Definition calcDifficultyFrontier (time : Z) (parent : Header) : Z :=
  let adjust := Difficulty parent / DifficultyBoundDivisor in
  let bigTime := time in
  let bigParentTime := Time parent in
  let diff :=
    if bigTime - bigParentTime <? DurationLimit
    then Difficulty parent + adjust
    else Difficulty parent - adjust in
  let diff := if diff <? MinimumDifficulty then MinimumDifficulty else diff in
  let periodCount := Number parent + 1 in
  let periodCount := periodCount / expDiffPeriod in
  if 1 <? periodCount
  then
    let expDiff := periodCount - 2 in
    let expDiff := 2 ^ expDiff in
    let diff := diff + expDiff in
    BigMax diff MinimumDifficulty
  else diff.

Section Difficulty.

(** [params.ETHWStartDifficulty]: the difficulty the chain restarts from
    2048 blocks after the EthPoW fork.  Its value is declared in package
    [params]; the calculators are read for an arbitrary one. *)
Variable ETHWStartDifficulty : Z.

(** [CalcDifficulty]: the epoch dispatch. *)
Definition CalcDifficulty (config : ChainConfig) (time : Z) (parent : Header) : Z :=
  let next := Number parent + 1 in
  if IsEthPoWFork config next then
    if match EthPoWForkBlock config with
       | Some b => b + 2048 =? next
       | None => false
       end
    then ETHWStartDifficulty
    else if match EthPoWForkBlock config with
            | Some b => b =? next
            | None => false
            end
    then 1
    else calcDifficultyEthPoW time parent
  else if IsGrayGlacier config next then calcDifficultyEip5133 time parent
  else if IsArrowGlacier config next then calcDifficultyEip4345 time parent
  else if IsLondon config next then calcDifficultyEip3554 time parent
  else if IsMuirGlacier config next then calcDifficultyEip2384 time parent
  else if IsConstantinople config next then calcDifficultyConstantinople time parent
  else if IsByzantium config next then calcDifficultyByzantium time parent
  else if IsHomestead config next then calcDifficultyHomestead time parent
  else calcDifficultyFrontier time parent.

(** The constants of the hybrid weighting. *)
Definition minimumDifficulty : Z := 131072.
Definition stakeWeight : Z := 50.
Definition transactionWeight : Z := 30.
Definition trustWeight : Z := 20.
Definition powWeight : Z := 100.
Definition totalWeight : Z := 200.

(** [CalcCustomDifficulty]: the PoW difficulty blended with the three
    participation factors; [config] stands for [chain.Config()]. *)
Definition CalcCustomDifficulty (config : ChainConfig) (time : Z) (parent : Header)
    (posFactor potFactor trustFactor : Z) : Z :=
  let powDifficulty := CalcDifficulty config time parent in
  let posDifficulty := powDifficulty * stakeWeight in
  let posDifficulty := posDifficulty * posFactor in
  let posDifficulty := posDifficulty / totalWeight in
  let potDifficulty := powDifficulty * transactionWeight in
  let potDifficulty := potDifficulty * potFactor in
  let potDifficulty := potDifficulty / totalWeight in
  let trustDifficulty := powDifficulty * trustWeight in
  let trustDifficulty := trustDifficulty * trustFactor in
  let trustDifficulty := trustDifficulty / totalWeight in
  let finalDifficulty := powDifficulty + posDifficulty in
  let finalDifficulty := finalDifficulty + potDifficulty in
  let finalDifficulty := finalDifficulty + trustDifficulty in
  if finalDifficulty <? minimumDifficulty then minimumDifficulty else finalDifficulty.

End Difficulty.


(* ===================================================================== *)
(** ** Errors, the engine and its collaborators *)
(* ===================================================================== *)

(** The errors of [consensus.go] and of package [consensus]; [Errorf] is a
    [fmt.Errorf] with its format and arguments, [errMisc] an error raised
    by package [misc], whose text the engine never reads. *)
Inductive error :=
| errOlderBlockTime
| errTooManyUncles
| errDuplicateUncle
| errUncleIsAncestor
| errDanglingUncle
| errInvalidDifficulty
| errInvalidMixDigest
| errInvalidPoW
| ErrUnknownAncestor
| ErrFutureBlock
| ErrInvalidNumber
| Errorf (format : string) (args : list Z)
| errMisc (code : Z).

#[global] Instance error_eq_dec : EqDecision error.
Proof. solve_decision. Defined.

(** [if cond { return err }] *)
Definition reject_if (cond : bool) (err : error) : option error :=
  if cond then Some err else None.

(** [if err := call; err != nil { return err }] followed by the rest. *)
Definition and_then (r : option error) (rest : option error) : option error :=
  match r with
  | Some err => Some err
  | None => rest
  end.

Notation "r ;; rest" := (and_then r rest) (at level 100, rest at level 200, right associativity).

#[local] Set Warnings "-register-all".

Inductive Mode := ModeNormal | ModeShared | ModeTest | ModeFake | ModeFullFake.

#[global] Instance Mode_eq_dec : EqDecision Mode.
Proof. solve_decision. Defined.

(** The fields of [Ethash] that verification reads.  [generated number]
    stands for [ethash.dataset(number, true).generated()]. *)
Inductive Ethash := mkEthash {
  PowMode : Mode;
  fakeFail : Z;
  generated : Z -> bool;
  shared : option Ethash
}.

(** [consensus.ChainReader]: the chain as the engine reads it. *)
Record ChainReader := mkChainReader {
  Config : ChainConfig;
  GetHeader : Hash -> Z -> option Header;
  GetBlock : Hash -> Z -> option Block
}.

(** Modelled from the spec: the collaborators outside the engine, each at
    its interface: header hashing, the memory-hard hash over the full
    dataset or the light cache of a block number, the fork checks of package
    [misc], and two limits of package [params]. *)
Record Externals := mkExternals {
  HeaderHash : Header -> Hash;
  SealHash : Header -> Hash;
  datasetSize : Z -> Z;
  hashimotoFull : Z -> Hash -> Z -> list byte * list byte;
  hashimotoLight : Z -> Z -> Hash -> Z -> list byte * list byte;
  VerifyGaslimit : Z -> Z -> option error;
  VerifyEip1559Header : ChainConfig -> Header -> Header -> option error;
  VerifyDAOHeaderExtraData : ChainConfig -> Header -> option error;
  VerifyForkHashes : ChainConfig -> Header -> bool -> option error;
  MaximumExtraDataSize : Z;
  MaxGasLimit : Z
}.

Definition maxUncles : nat := 2.
Definition allowedFutureBlockTimeSeconds : Z := 15.

(** Modelled from the spec: [two256] is declared beside the hashing
    primitives; the seal target is [2^256 / difficulty]. *)
Definition two256 : Z := 2 ^ 256.

(** [bytes.Equal] *)
Definition bytes_Equal (a b : list byte) : bool := bool_decide (a = b).

Definition isFake (m : Mode) : bool :=
  match m with
  | ModeFake | ModeFullFake => true
  | _ => false
  end.

(** The engine that checks the seal: [verifySeal] hands the header on to
    [ethash.shared] as long as the mode is not a fake one. *)
Fixpoint sealer (ethash : Ethash) : Ethash :=
  match ethash with
  | mkEthash mode fail gen sh =>
    if isFake mode then ethash
    else
      match sh with
      | Some sharedEngine => sealer sharedEngine
      | None => ethash
      end
  end.

Section Engine.

Variable ETHWStartDifficulty : Z.
Variable ext : Externals.

(** [verifySeal].  The sleep of the fake modes takes time and changes
    nothing, so it is left out. *)
Fixpoint verifySeal (ethash : Ethash) (header : Header) (fulldag : bool) : option error :=
  match ethash with
  | mkEthash mode fail gen sh =>
    if isFake mode then
      if fail =? Uint64 (Number header) then Some errInvalidPoW else None
    else
      match sh with
      | Some sharedEngine => verifySeal sharedEngine header fulldag
      | None =>
        if Difficulty header <=? 0 then Some errInvalidDifficulty
        else
          let number := Uint64 (Number header) in
          let full :=
            if fulldag then
              if gen number
              then Some (hashimotoFull ext number (SealHash ext header) (Nonce header))
              else None
            else None in
          let '(digest, result) :=
            match full with
            | Some dr => dr
            | None =>
              let size := datasetSize ext number in
              let size := if decide (mode = ModeTest) then 32 * 1024 else size in
              hashimotoLight ext size number (SealHash ext header) (Nonce header)
            end in
          if negb (bytes_Equal (MixDigest header) digest) then Some errInvalidMixDigest
          else
            let target := two256 / Difficulty header in
            if target <? SetBytes result then Some errInvalidPoW
            else None
      end
  end.

(** [verifyHeader] *)
Definition verifyHeader (ethash : Ethash) (chain : ChainReader) (header parent : Header)
    (uncle seal : bool) (unixNow : Z) : option error :=
  reject_if (MaximumExtraDataSize ext <? Z.of_nat (length (Extra header)))
    (Errorf "extra-data too long: %d > %d"
       [Z.of_nat (length (Extra header)); MaximumExtraDataSize ext]) ;;
  reject_if (negb uncle && (wrap64 (unixNow + allowedFutureBlockTimeSeconds) <? Time header))
    ErrFutureBlock ;;
  reject_if (Time header <=? Time parent) errOlderBlockTime ;;
  let expected := CalcDifficulty ETHWStartDifficulty (Config chain) (Time header) parent in
  reject_if (negb (expected =? Difficulty header))
    (Errorf "invalid difficulty: have %v, want %v" [Difficulty header; expected]) ;;
  reject_if (MaxGasLimit ext <? GasLimit header)
    (Errorf "invalid gasLimit: have %v, max %v" [GasLimit header; MaxGasLimit ext]) ;;
  reject_if (GasLimit header <? GasUsed header)
    (Errorf "invalid gasUsed: have %d, gasLimit %d" [GasUsed header; GasLimit header]) ;;
  (if negb (IsLondon (Config chain) (Number header)) then
     match BaseFee header with
     | Some fee => Some (Errorf "invalid baseFee before fork: have %d, expected 'nil'" [fee])
     | None => VerifyGaslimit ext (GasLimit parent) (GasLimit header)
     end
   else VerifyEip1559Header ext (Config chain) parent header) ;;
  reject_if (negb (Number header - Number parent =? 1)) ErrInvalidNumber ;;
  (if seal then verifySeal ethash header false else None) ;;
  VerifyDAOHeaderExtraData ext (Config chain) header ;;
  VerifyForkHashes ext (Config chain) header uncle ;;
  None.

(** The first loop of [VerifyUncles]: up to seven ancestors of the block
    and the uncles they include. *)
Fixpoint gatherAncestors (chain : ChainReader) (i : nat) (parent : Hash) (number : Z)
    (uncles : gset Hash) (ancestors : gmap Hash Header) : gset Hash * gmap Hash Header :=
  match i with
  | O => (uncles, ancestors)
  | S i' =>
    match GetHeader chain parent number with
    | None => (uncles, ancestors)
    | Some ancestorHeader =>
      let ancestors := <[parent := ancestorHeader]> ancestors in
      if decide (UncleHash ancestorHeader = EmptyUncleHash) then
        gatherAncestors chain i' (ParentHash ancestorHeader) (wrap64 (number - 1)) uncles ancestors
      else
        match GetBlock chain parent number with
        | None => (uncles, ancestors)
        | Some ancestor =>
          let uncles := foldl (fun set uncle => set ∪ {[HeaderHash ext uncle]}) uncles (Uncles ancestor) in
          gatherAncestors chain i' (ParentHash ancestorHeader) (wrap64 (number - 1)) uncles ancestors
        end
    end
  end.

(** The second loop of [VerifyUncles]: the checks on each uncle in turn. *)
Fixpoint checkUncles (ethash : Ethash) (chain : ChainReader) (block : Block) (unixNow : Z)
    (todo : list Header) (uncles : gset Hash) (ancestors : gmap Hash Header) : option error :=
  match todo with
  | [] => None
  | uncle :: todo' =>
    let hash := HeaderHash ext uncle in
    if decide (hash ∈ uncles) then Some errDuplicateUncle
    else
      let uncles := uncles ∪ {[hash]} in
      match ancestors !! hash with
      | Some _ => Some errUncleIsAncestor
      | None =>
        match ancestors !! ParentHash uncle with
        | None => Some errDanglingUncle
        | Some uncleParent =>
          if decide (ParentHash uncle = ParentHash (BlockHeader block)) then Some errDanglingUncle
          else
            verifyHeader ethash chain uncle uncleParent true true unixNow ;;
            checkUncles ethash chain block unixNow todo' uncles ancestors
        end
      end
  end.

(** [VerifyUncles].  The code reads the clock anew for each uncle and hands
    the reading to [verifyHeader], which does not look at it for an uncle;
    [unixNow] stands for these readings. *)
Definition VerifyUncles (ethash : Ethash) (chain : ChainReader) (block : Block) (unixNow : Z)
    : option error :=
  if decide (PowMode ethash = ModeFullFake) then None
  else if (maxUncles <? length (Uncles block))%nat then Some errTooManyUncles
  else if (length (Uncles block) =? 0)%nat then None
  else
    let number := wrap64 (Uint64 (Number (BlockHeader block)) - 1) in
    let parent := ParentHash (BlockHeader block) in
    let '(uncles, ancestors) := gatherAncestors chain 7 parent number ∅ ∅ in
    let ancestors := <[HeaderHash ext (BlockHeader block) := BlockHeader block]> ancestors in
    let uncles := uncles ∪ {[HeaderHash ext (BlockHeader block)]} in
    checkUncles ethash chain block unixNow (Uncles block) uncles ancestors.

(** [verifyHeaderWorker].  The outer [option] is [None] where Go stops with
    an index out of range. *)
Definition verifyHeaderWorker (ethash : Ethash) (chain : ChainReader) (headers : list Header)
    (seals : list bool) (index : nat) (unixNow : Z) : option (option error) :=
  header ← headers !! index;
  parent ←
    (if (index =? 0)%nat then
       first ← headers !! 0%nat;
       Some (GetHeader chain (ParentHash first) (wrap64 (Uint64 (Number first) - 1)))
     else
       previous ← headers !! (index - 1)%nat;
       Some (if decide (HeaderHash ext previous = ParentHash header)
             then Some previous else None));
  match parent with
  | None => Some (Some ErrUnknownAncestor)
  | Some parent =>
    seal ← seals !! index;
    Some (verifyHeader ethash chain header parent false seal unixNow)
  end.

End Engine.

(* ===================================================================== *)
(** ** [VerifyHeaders]: the worker pool and the reordering loop *)
(* ===================================================================== *)

(** A worker goroutine is waiting on [inputs], holds an index whose header
    it is verifying, or has stored the result and is about to send the index
    on [done]. *)
Inductive worker :=
| Idle
| Working (index : nat)
| Sending (index : nat).

#[global] Instance worker_eq_dec : EqDecision worker.
Proof. solve_decision. Defined.

(** The variables the goroutines of [VerifyHeaders] share.  [inputsNil]
    says that the coordinator has set its copy of [inputs] to nil; [done] is
    the content of the buffered channel, oldest first; [errorsOut] is what
    has been sent on the results channel so far, oldest first; [returned]
    says that the coordinator goroutine has returned; [panicked] that some
    goroutine stopped with an index out of range. *)
Record pool := mkPool {
  workers : list worker;
  inputsNil : bool;
  done : list nat;
  errors : list (option error);
  in_ : nat;
  out : nat;
  checked : list bool;
  errorsOut : list (option error);
  returned : bool;
  panicked : bool
}.

(** What the scheduler may pick next: the rendezvous of the coordinator's
    [inputs <- in] with worker [w]; worker [w] finishing its verification and
    storing the result; worker [w] sending on [done]; the coordinator
    receiving from [done] and emitting; the caller closing [abort]. *)
Inductive event :=
| Dispatch (w : nat)
| Compute (w : nat)
| SendDone (w : nat)
| Collect
| Abort.

#[global] Instance event_eq_dec : EqDecision event.
Proof. solve_decision. Defined.

(** [slice[i] = x]; [None] where Go stops with an index out of range. *)
Definition store {A : Type} (slice : list A) (i : nat) (x : A) : option (list A) :=
  if (i <? length slice)%nat then Some (<[i := x]> slice) else None.

Definition panic (s : pool) : pool :=
  mkPool (workers s) (inputsNil s) (done s) (errors s) (in_ s) (out s)
         (checked s) (errorsOut s) (returned s) true.

(** The loop [for ...; checked[out]; out++] of the coordinator: the result
    is the new [out], the new [errorsOut], and whether the coordinator
    returned; [None] is an index out of range.  The loop runs at most once
    per header, which [fuel] counts.  The results channel has room for one
    result per header, so a send on it never waits. *)
Fixpoint emit (fuel : nat) (len : nat) (checked : list bool) (errors : list (option error))
    (out : nat) (errorsOut : list (option error)) : option (nat * list (option error) * bool) :=
  match fuel with
  | O => None
  | S fuel' =>
    match checked !! out with
    | None => None
    | Some false => Some (out, errorsOut, false)
    | Some true =>
      match errors !! out with
      | None => None
      | Some err =>
        let errorsOut := errorsOut ++ [err] in
        if (out =? len - 1)%nat then Some (out, errorsOut, true)
        else emit fuel' len checked errors (S out) errorsOut
      end
    end
  end.

Section Pool.

(** [verify index] is [verifyHeaderWorker] on the batch at [index]; [len] is
    [len(headers)]. *)
Variable verify : nat -> option (option error).
Variable len : nat.

Definition step (ev : event) (s : pool) : option pool :=
  if panicked s then None
  else
    match ev with
    | Dispatch w =>
      if returned s || inputsNil s then None
      else
        match workers s !! w with
        | Some Idle =>
          let index := in_ s in
          let in' := S index in
          Some (mkPool (<[w := Working index]> (workers s)) (in' =? len)%nat (done s)
                       (errors s) in' (out s) (checked s) (errorsOut s) (returned s) false)
        | _ => None
        end
    | Compute w =>
      match workers s !! w with
      | Some (Working index) =>
        match verify index with
        | None => Some (panic s)
        | Some err =>
          match store (errors s) index err with
          | None => Some (panic s)
          | Some errors' =>
            Some (mkPool (<[w := Sending index]> (workers s)) (inputsNil s) (done s)
                         errors' (in_ s) (out s) (checked s) (errorsOut s) (returned s) false)
          end
        end
      | _ => None
      end
    | SendDone w =>
      match workers s !! w with
      | Some (Sending index) =>
        if (length (done s) <? length (workers s))%nat then
          Some (mkPool (<[w := Idle]> (workers s)) (inputsNil s) (done s ++ [index])
                       (errors s) (in_ s) (out s) (checked s) (errorsOut s) (returned s) false)
        else None
      | _ => None
      end
    | Collect =>
      if returned s then None
      else
        match done s with
        | [] => None
        | index :: done' =>
          match store (checked s) index true with
          | None => Some (panic s)
          | Some checked' =>
            match emit (S len) len checked' (errors s) (out s) (errorsOut s) with
            | None => Some (panic s)
            | Some (out', errorsOut', ret) =>
              Some (mkPool (workers s) (inputsNil s) done' (errors s) (in_ s) out'
                           checked' errorsOut' ret false)
            end
          end
        end
    | Abort =>
      if returned s then None
      else
        Some (mkPool (workers s) (inputsNil s) (done s) (errors s) (in_ s) (out s)
                     (checked s) (errorsOut s) true false)
    end.

(** The pool after the scheduler's picks [sched], when each is possible. *)
Fixpoint run (sched : list event) (s : pool) : option pool :=
  match sched with
  | [] => Some s
  | ev :: sched' =>
    match step ev s with
    | None => None
    | Some s' => run sched' s'
    end
  end.

End Pool.

(** [VerifyHeaders] up to the point where it hands the two channels to the
    caller: in the full-fake mode and on an empty batch the results channel
    holds a nil per header and no goroutine runs; otherwise the workers wait
    on [inputs].  [gomaxprocs] is [runtime.GOMAXPROCS(0)]. *)
Definition VerifyHeaders (ethash : Ethash) (gomaxprocs : nat) (headers : list Header) : pool :=
  if bool_decide (PowMode ethash = ModeFullFake) || (length headers =? 0)%nat then
    mkPool [] true [] [] 0 0 [] (replicate (length headers) None) true false
  else
    let workers := gomaxprocs in
    let workers := if (length headers <? workers)%nat then length headers else workers in
    mkPool (replicate workers Idle) false [] (replicate (length headers) None) 0 0
           (replicate (length headers) false) [] false false.

(** The work left in a pool: four units per header not yet handed out,
    three per header being verified, two per result not yet announced, one
    per index waiting in [done]. *)
Definition weight (w : worker) : nat :=
  match w with
  | Idle => 0%nat
  | Working _ => 3%nat
  | Sending _ => 2%nat
  end.

Definition workLeft (len : nat) (s : pool) : nat :=
  (4 * (len - in_ s) + foldr (fun w acc => weight w + acc) 0 (workers s) + length (done s))%nat.

(** What holds of the pool of a batch of [len] headers whose results are
    [res], as long as nobody aborts. *)
Record consistent (len : nat) (res : nat -> option error) (s : pool) : Prop := mkConsistent {
  cons_panicked : panicked s = false;
  cons_workers : workers s <> [];
  cons_errors : length (errors s) = len;
  cons_checked : length (checked s) = len;
  cons_in : (in_ s <= len)%nat;
  cons_nil : inputsNil s = (in_ s =? len)%nat;
  cons_covered : forall i, (i < in_ s)%nat ->
    (exists w, workers s !! w = Some (Working i))
    \/ (exists w, workers s !! w = Some (Sending i))
    \/ i ∈ done s
    \/ checked s !! i = Some true;
  cons_working : forall w i, workers s !! w = Some (Working i) -> (i < in_ s)%nat;
  cons_sending : forall w i, workers s !! w = Some (Sending i) -> (i < in_ s)%nat;
  cons_done : forall i, i ∈ done s -> (i < in_ s)%nat;
  cons_stored : forall i,
    (exists w, workers s !! w = Some (Sending i)) \/ i ∈ done s \/ checked s !! i = Some true ->
    errors s !! i = Some (res i);
  cons_out : forall i, (i < out s)%nat -> checked s !! i = Some true;
  cons_running : returned s = false ->
    (out s < len)%nat /\ checked s !! out s = Some false /\ errorsOut s = res <$> seq 0 (out s);
  cons_returned : returned s = true -> errorsOut s = res <$> seq 0 len
}.

(* ===================================================================== *)
(** ** Rewards *)
(* ===================================================================== *)

(** Modelled from the spec: the state collaborator, reduced to the balances
    [AddBalance(address, amount)] adds to. *)
Definition GetBalance (state : gmap Address Z) (addr : Address) : Z :=
  default 0 (state !! addr).

Definition AddBalance (addr : Address) (amount : Z) (state : gmap Address Z) : gmap Address Z :=
  <[addr := GetBalance state addr + amount]> state.

Module participant.

(** The fields of [Participant] that [calculateIndividualReward] reads. *)
Record Participant := mkParticipant {
  Address : Address;
  Stake : Z;
  TransactionCount : Z;
  UptimePercentage : Z
}.

End participant.

Definition calculateIndividualReward (p : participant.Participant) (totalReward : Z) : Z :=
  let stakeFactor := participant.Stake p in
  let transactionFactor := participant.TransactionCount p in
  let uptimeFactor := participant.UptimePercentage p in
  let reward := stakeFactor * transactionFactor in
  let reward := reward * uptimeFactor in
  let reward := reward / 10000 in
  if totalReward <? reward then totalReward else reward.

Definition getPoSAndPoTParticipants : list participant.Participant := [].

Definition distributePoSPoTRewards (state : gmap Address Z) (header : Header) (reward : Z)
    : gmap Address Z :=
  foldl (fun state p =>
           let individualReward := calculateIndividualReward p reward in
           AddBalance (participant.Address p) individualReward state)
        state getPoSAndPoTParticipants.

(** One turn of the loop over the uncles in [accumulateRewards]; the pair is
    the state and the miner's running [reward]. *)
Definition rewardUncle (blockReward powReward : Z) (header : Header)
    (acc : gmap Address Z * Z) (uncle : Header) : gmap Address Z * Z :=
  let '(state, reward) := acc in
  let r := Number uncle + 8 in
  let r := r - Number header in
  let r := r * blockReward in
  let r := r / 8 in
  let state := AddBalance (Coinbase uncle) r state in
  let r := powReward / 32 in
  (state, reward + r).

Definition accumulateRewards (config : ChainConfig) (state : gmap Address Z) (header : Header)
    (uncles : list Header) : gmap Address Z :=
  let blockReward := 1000000000000000000 in
  let powReward := blockReward in
  let posPotReward := blockReward in
  let reward := powReward in
  let '(state, reward) := foldl (rewardUncle blockReward powReward header) (state, reward) uncles in
  let state := AddBalance (Coinbase header) reward state in
  distributePoSPoTRewards state header posPotReward.

(* ===================================================================== *)
(** ** The stake registry ([pos.go]) *)
(* ===================================================================== *)

Module pos.

(** A [*big.Int] is a pointer: the registry keeps the pointer it is handed
    and adds to the number behind it in place.  [heap] holds the numbers
    behind the pointers; a pointer outside it is nil. *)
Abbreviation ptr := positive (only parsing).
Abbreviation heap := (gmap positive Z) (only parsing).

Record Validator := mkValidator {
  Address : Address;
  Stake : ptr;
  LastReward : Z;
  Uptime : Z;
  IsValidator : bool
}.

Record PoS := mkPoS {
  Validators : gmap common.Address Validator;
  TotalStake : ptr
}.

(** [NewPoS]: [big.NewInt(0)] takes a pointer the heap does not hold yet. *)
Definition NewPoS (h : heap) : PoS * heap :=
  let total := fresh (dom h) in
  (mkPoS ∅ total, <[total := 0]> h).

(** [x.Add(x, y)] on pointers; [None] is the nil dereference. *)
Definition Add (h : heap) (x y : ptr) : option heap :=
  a ← h !! x;
  b ← h !! y;
  Some (<[x := a + b]> h).

(** [UpdateValidator]; [None] is a run-time panic. *)
Definition UpdateValidator (pos : PoS) (address : common.Address) (stake : ptr) (blockNumber : Z)
    (h : heap) : option (PoS * heap) :=
  match Validators pos !! address with
  | None =>
    let validator := mkValidator address stake 0 0 true in
    h ← Add h (TotalStake pos) stake;
    let validator :=
      mkValidator (Address validator) (Stake validator) blockNumber (Uptime validator)
                  (IsValidator validator) in
    Some (mkPoS (<[address := validator]> (Validators pos)) (TotalStake pos), h)
  | Some validator =>
    h ← Add h (Stake validator) stake;
    let validator :=
      mkValidator (Address validator) (Stake validator) blockNumber (Uptime validator)
                  (IsValidator validator) in
    Some (mkPoS (<[address := validator]> (Validators pos)) (TotalStake pos), h)
  end.

(** The number behind a pointer, [0] for nil. *)
Definition value (h : heap) (p : ptr) : Z := default 0 (h !! p).

(** The registry's aggregate. *)
Definition totalStake (pos : PoS) (h : heap) : Z := value h (TotalStake pos).

(** The stake of an address: the number behind its validator's [Stake], [0]
    for an address that has no validator. *)
Definition stakeOf (pos : PoS) (h : heap) (address : common.Address) : Z :=
  match Validators pos !! address with
  | Some validator => value h (Stake validator)
  | None => 0
  end.

(** The sum of all validators' current stakes. *)
Definition sumStakes (pos : PoS) (h : heap) : Z :=
  map_fold (fun _ validator acc => acc + value h (Stake validator)) 0 (Validators pos).

(** A call of [UpdateValidator]: address, stake, block number. *)
Abbreviation call := (list byte * positive * Z)%type (only parsing).

(** A sequence of calls, one after the other. *)
Fixpoint updateAll (calls : list call) (pos : PoS) (h : heap) : option (PoS * heap) :=
  match calls with
  | [] => Some (pos, h)
  | (address, stake, blockNumber) :: calls' =>
    match UpdateValidator pos address stake blockNumber h with
    | None => None
    | Some (pos', h') => updateAll calls' pos' h'
    end
  end.

(** The calls that are the first for their address, as the call list shows
    them: a call counts when neither [seen] nor an earlier call of the list
    names its address. *)
Fixpoint firstCalls (seen : list common.Address) (calls : list call) : list call :=
  match calls with
  | [] => []
  | c :: calls' =>
    let rest := firstCalls (c.1.1 :: seen) calls' in
    if decide (c.1.1 ∈ seen) then rest else c :: rest
  end.

(** The sum of the amounts passed in each address's first call only.  Which
    calls are first is read off the call list, not off the registry; the
    amount a call passes is the number behind its stake when the call is
    made, so the heap is followed from call to call. *)
Fixpoint firstCallAmounts (seen : list common.Address) (calls : list call) (pos : PoS)
    (h : heap) : Z :=
  match calls with
  | [] => 0
  | (address, stake, blockNumber) :: calls' =>
    (if decide (address ∈ seen) then 0 else value h stake)
    + match UpdateValidator pos address stake blockNumber h with
      | None => 0
      | Some (pos', h') => firstCallAmounts (address :: seen) calls' pos' h'
      end
  end.

(** Who owns which number: [h0] holds the caller's [big.Int]s, which the
    registry's aggregate is not one of; the current heap [h] holds them all,
    and every validator's stake is one of the caller's. *)
Definition owned (h0 : heap) (pos : PoS) (h : heap) : Prop :=
  h0 !! TotalStake pos = None
  /\ is_Some (h !! TotalStake pos)
  /\ (forall l, is_Some (h0 !! l) -> is_Some (h !! l))
  /\ (forall a v, Validators pos !! a = Some v -> is_Some (h0 !! Stake v)).

End pos.

(* ===================================================================== *)
(** ** The transaction registry ([PoT]) *)
(* ===================================================================== *)

Module pot.

Record TransactionRecord := mkTransactionRecord {
  Address : Address;
  TransactionCount : Z;      (* uint64 *)
  LastTransaction : Z        (* uint64 *)
}.

Record PoT := mkPoT {
  TransactionRecords : gmap common.Address TransactionRecord;
  TotalTransactions : Z      (* uint64 *)
}.

Definition NewPoT : PoT := mkPoT ∅ 0.

Definition RecordTransaction (pot : PoT) (address : common.Address) (blockNumber : Z) : PoT :=
  match TransactionRecords pot !! address with
  | None =>
    let record := mkTransactionRecord address 1 blockNumber in
    mkPoT (<[address := record]> (TransactionRecords pot)) (wrap64 (TotalTransactions pot + 1))
  | Some record =>
    let record :=
      mkTransactionRecord (Address record) (wrap64 (TransactionCount record + 1)) blockNumber in
    mkPoT (<[address := record]> (TransactionRecords pot)) (TotalTransactions pot)
  end.

(** A sequence of calls, each an address and a block number. *)
Definition recordAll (calls : list (list byte * Z)) (pot : PoT) : PoT :=
  foldl (fun pot c => RecordTransaction pot c.1 c.2) pot calls.

(** The number of transactions the registry has recorded: the sum of the
    records' counts. *)
Definition recordedTransactions (pot : PoT) : Z :=
  map_fold (fun _ record acc => acc + TransactionCount record) 0 (TransactionRecords pot).

End pot.

(* ===================================================================== *)
(** ** The 256-bit calculators *)
(* ===================================================================== *)

(** The operations of [uint256.Int] the calculators use: unsigned integers
    below [2^256], every result taken modulo [2^256]. *)
Module uint256.

Definition modulus : Z := 2 ^ 256.

(** [FromBig], [SetFromBig]: the low 256 bits, in two's complement for a
    negative number; the overflow flag is dropped by the callers. *)
Definition FromBig (b : Z) : Z := b mod modulus.

Definition Add (x y : Z) : Z := (x + y) mod modulus.
Definition Sub (x y : Z) : Z := (x - y) mod modulus.
Definition Mul (x y : Z) : Z := (x * y) mod modulus.
Definition Rsh (x n : Z) : Z := Z.shiftr x n.
Definition Lsh (x n : Z) : Z := Z.shiftl x n mod modulus.
Definition LtUint64 (x n : Z) : bool := x <? n.

End uint256.

Definition frontierDurationLimit : Z := 13.
Definition expDiffPeriodUint : Z := 100000.
Definition difficultyBoundDivisor : Z := 11.

(** [CalcDifficultyFrontierU256] *)
Definition CalcDifficultyFrontierU256 (time : Z) (parent : Header) : Z :=
  let pDiff := uint256.FromBig (Difficulty parent) in
  let adjust := pDiff in
  let adjust := uint256.Rsh adjust difficultyBoundDivisor in
  let pDiff :=
    if wrap64 (time - Time parent) <? frontierDurationLimit
    then uint256.Add pDiff adjust
    else uint256.Sub pDiff adjust in
  let pDiff := if uint256.LtUint64 pDiff minimumDifficulty then minimumDifficulty else pDiff in
  let periodCount := wrap64 (Uint64 (Number parent) + 1) / expDiffPeriodUint in
  if 1 <? periodCount then
    let expDiff := 1 in
    let expDiff := uint256.Lsh expDiff (wrap64 (periodCount - 2)) in
    uint256.Add pDiff expDiff
  else pDiff.

(** [CalcDifficultyHomesteadU256] *)
Definition CalcDifficultyHomesteadU256 (time : Z) (parent : Header) : Z :=
  let pDiff := uint256.FromBig (Difficulty parent) in
  let adjust := pDiff in
  let adjust := uint256.Rsh adjust difficultyBoundDivisor in
  let x := wrap64 (time - Time parent) / 10 in
  let '(x, neg) :=
    if x =? 0 then (1, false)
    else if 100 <=? x then (99, true)
    else (wrap64 (x - 1), true) in
  let z := x in
  let adjust := uint256.Mul adjust z in
  let pDiff := if neg then uint256.Sub pDiff adjust else uint256.Add pDiff adjust in
  let pDiff := if uint256.LtUint64 pDiff minimumDifficulty then minimumDifficulty else pDiff in
  let periodCount := wrap64 (1 + Uint64 (Number parent)) / expDiffPeriodUint in
  if 1 <? periodCount then
    let expFactor := uint256.Lsh 1 (wrap64 (periodCount - 2)) in
    uint256.Add pDiff expFactor
  else pDiff.

(** [MakeDifficultyCalculatorU256 bombDelay] *)
Definition MakeDifficultyCalculatorU256 (bombDelay : Z) (time : Z) (parent : Header) : Z :=
  let bombDelayFromParent := wrap64 (Uint64 bombDelay - 1) in
  let x := wrap64 (time - Time parent) / 9 in
  let c := if decide (UncleHash parent = EmptyUncleHash) then 1 else 2 in
  let xNeg := c <=? x in
  let x := if xNeg then wrap64 (x - c) else wrap64 (c - x) in
  let x := if 99 <? x then 99 else x in
  let y := uint256.FromBig (Difficulty parent) in
  let pDiff := y in
  let z := x in
  let y := uint256.Rsh y difficultyBoundDivisor in
  let z := uint256.Mul y z in
  let y := if xNeg then uint256.Sub pDiff z else uint256.Add pDiff z in
  let y := if uint256.LtUint64 y minimumDifficulty then minimumDifficulty else y in
  let pNum := Uint64 (Number parent) in
  if bombDelayFromParent <=? pNum then
    let fakeBlockNumber := wrap64 (pNum - bombDelayFromParent) in
    if 2 * expDiffPeriodUint <=? fakeBlockNumber then
      let z := 1 in
      let z := uint256.Lsh z (wrap64 (fakeBlockNumber / expDiffPeriodUint - 2)) in
      uint256.Add z y
    else y
  else y.

(* ===================================================================== *)
(** ** Single headers: [Author], [VerifyHeader], [Prepare] *)
(* ===================================================================== *)

(** [Author] *)
Definition Author (header : Header) : Address * option error :=
  (Coinbase header, None).

(** [header.Difficulty = d] *)
Definition setDifficulty (header : Header) (d : Z) : Header :=
  mkHeader (ParentHash header) (UncleHash header) (Coinbase header) d (Number header)
           (GasLimit header) (GasUsed header) (Time header) (Extra header)
           (MixDigest header) (Nonce header) (BaseFee header).

Section SingleHeader.

Variable ETHWStartDifficulty : Z.
Variable ext : Externals.

(** [VerifyHeader]; [unixNow] is the reading of the clock. *)
Definition VerifyHeader (ethash : Ethash) (chain : ChainReader) (header : Header) (seal : bool)
    (unixNow : Z) : option error :=
  if decide (PowMode ethash = ModeFullFake) then None
  else
    let number := Uint64 (Number header) in
    match GetHeader chain (HeaderHash ext header) number with
    | Some _ => None
    | None =>
      match GetHeader chain (ParentHash header) (wrap64 (number - 1)) with
      | None => Some ErrUnknownAncestor
      | Some parent =>
        verifyHeader ETHWStartDifficulty ext ethash chain header parent false seal unixNow
      end
    end.

(** [Prepare]: the header as the call leaves it, and the error. *)
Definition Prepare (chain : ChainReader) (header : Header) : Header * option error :=
  match GetHeader chain (ParentHash header) (wrap64 (Uint64 (Number header) - 1)) with
  | None => (header, Some ErrUnknownAncestor)
  | Some parent =>
    (setDifficulty header (CalcDifficulty ETHWStartDifficulty (Config chain) (Time header) parent),
     None)
  end.

End SingleHeader.

(* ===================================================================== *)
(** ** The trust registry ([ProofOfTrust]) *)
(* ===================================================================== *)

Module trust.

Record TrustRecord := mkTrustRecord {
  Address : Address;
  Uptime : Z;                (* uint64 *)
  LastUpdate : Z             (* uint64 *)
}.

Record ProofOfTrust := mkProofOfTrust {
  TrustRecords : gmap common.Address TrustRecord
}.

Definition NewProofOfTrust : ProofOfTrust := mkProofOfTrust ∅.

Definition UpdateTrust (trust : ProofOfTrust) (address : common.Address) (uptime blockNumber : Z)
    : ProofOfTrust :=
  match TrustRecords trust !! address with
  | None =>
    let record := mkTrustRecord address uptime blockNumber in
    mkProofOfTrust (<[address := record]> (TrustRecords trust))
  | Some record =>
    let record := mkTrustRecord (Address record) uptime blockNumber in
    mkProofOfTrust (<[address := record]> (TrustRecords trust))
  end.

(** A sequence of calls, each an address, an uptime and a block number. *)
Definition updateAll (calls : list (list byte * Z * Z)) (trust : ProofOfTrust) : ProofOfTrust :=
  foldl (fun trust c => UpdateTrust trust c.1.1 c.1.2 c.2) trust calls.

End trust.

(** The sum of all balances. *)
Definition totalSupply (state : gmap Address Z) : Z :=
  map_fold (fun _ balance acc => acc + balance) 0 state.

(* ===================================================================== *)
(** ** Sample chains, blocks and registries *)
(* ===================================================================== *)

(** A chain configuration whose only fork is EthPoW at block 5, and the
    header of block 4. *)
Definition forkAtFive : ChainConfig :=
  mkChainConfig None None None None None None None (Some 5).

Definition blockFour : Header :=
  mkHeader [] EmptyUncleHash [] 1000000 4 8000000 0 1000 [] [] 0 None.

(** An address, and a registry that knows it with a stake of 42 behind
    pointer 3; pointer 1 holds a zero, pointer 2 the aggregate. *)
Definition alice : Address := [x0a]%byte.

Definition sampleHeap : gmap positive Z :=
  <[1%positive := 0]> (<[2%positive := 42]> (<[3%positive := 42]> ∅)).

Definition sampleRegistry : pos.PoS :=
  pos.mkPoS (<[alice := pos.mkValidator alice 3%positive 7 0 true]> ∅) 2%positive.

(** Two numbers of the caller's, and two calls for the same address. *)
Definition callerHeap : gmap positive Z :=
  <[1%positive := 5]> (<[2%positive := 3]> ∅).

Definition sampleCalls : list (list byte * positive * Z) :=
  [(alice, 1%positive, 10); (alice, 2%positive, 11)].

(** Stand-ins for the collaborators: a header's extra data serve as its
    hash, the memory-hard hash returns the digest [0x01] and the result
    [0x02], the checks of package [misc] pass. *)
Definition sampleExternals : Externals :=
  mkExternals (fun header => Extra header) (fun header => Extra header)
              (fun _ => 1073739904)
              (fun _ _ _ => ([x01]%byte, [x02]%byte))
              (fun _ _ _ _ => ([x01]%byte, [x02]%byte))
              (fun _ _ => None) (fun _ _ _ => None) (fun _ _ => None) (fun _ _ _ => None)
              32 9223372036854775807.

Definition noChain : ChainReader :=
  mkChainReader forkAtFive (fun _ _ => None) (fun _ _ => None).

Definition normalEngine : Ethash := mkEthash ModeNormal 0 (fun _ => false) None.

(** A header of block 10 without difficulty, and an uncle whose parent no
    chain knows. *)
Definition zeroDifficulty : Header :=
  mkHeader [x09]%byte EmptyUncleHash [] 0 10 8000000 0 1000 [x0a]%byte [] 0 None.

Definition orphan : Header :=
  mkHeader [x77]%byte EmptyUncleHash [] 1000000 9 8000000 0 990 [x0b]%byte [] 0 None.

(** A chain of two headers, blocks 8 and 9, the header of a block 10 on top
    of them, and an uncle of that block: a second child of block 8. *)
Definition block8 : Header :=
  mkHeader [x00]%byte EmptyUncleHash [] 1000000 8 8000000 0 980 [x68]%byte [x01]%byte 0 None.

Definition block9 : Header :=
  mkHeader [x68]%byte EmptyUncleHash [] 1000000 9 8000000 0 990 [x69]%byte [x01]%byte 0 None.

Definition block10 : Header :=
  mkHeader [x69]%byte EmptyUncleHash [] 1000000 10 8000000 0 1000 [x6a]%byte [x01]%byte 0 None.

Definition uncle9 : Header :=
  mkHeader [x68]%byte EmptyUncleHash [x0a]%byte 1000000 9 8000000 0 991 [x75]%byte [x01]%byte 0 None.

Definition twoBlocks : ChainReader :=
  mkChainReader forkAtFive
    (fun hash number =>
       if bool_decide (hash = [x69]%byte) && (number =? 9) then Some block9
       else if bool_decide (hash = [x68]%byte) && (number =? 8) then Some block8
       else None)
    (fun _ _ => None).

(** A batch of two headers, the second of which does not follow the first,
    and a run in which the second verification completes first. *)
Definition sampleBatch : list Header := [block9; zeroDifficulty].

Definition outOfOrder : list event :=
  [Dispatch 0; Dispatch 1; Compute 1; SendDone 1; Collect; Compute 0; SendDone 0; Collect].

Definition afterOutOfOrder : pool :=
  mkPool [Idle; Idle] true [] [None; Some ErrUnknownAncestor] 2 1 [true; true]
         [None; Some ErrUnknownAncestor] true false.

(** A late block, on which the bomb has gone off, and a second address. *)
Definition lateBlock : Header :=
  mkHeader [] EmptyUncleHash [] 1125899906842624 3400000 8000000 0 1000 [] [] 0 None.

Definition bob : Address := [x0b]%byte.

(** A run that the caller aborts while the first result is on its way. *)
Definition aborted : list event := [Dispatch 0; Compute 0; Abort; SendDone 0].

Definition afterAborted : pool :=
  mkPool [Idle; Idle] false [0%nat] [None; None] 1 0 [false; false] [] true false.

(** A header of difficulty one whose mix digest is the one the stand-in
    hash returns. *)
Definition easiest : Header :=
  mkHeader [x68]%byte EmptyUncleHash [] 1 9 8000000 0 991 [x76]%byte [x01]%byte 0 None.

(** An engine that shares a normal one, and two calls for one address, the
    first of which passes the registry's own aggregate as the stake. *)
Definition sharingEngine : Ethash := mkEthash ModeNormal 0 (fun _ => false) (Some normalEngine).

Definition aggregateAsStake : list (list byte * positive * Z) :=
  [(alice, pos.TotalStake (pos.NewPoS callerHeap).1, 10); (alice, 1%positive, 11)].

(* END SAMPLES *)

(* ===================================================================== *)
(** * Properties *)
(* ===================================================================== *)

(** ** The difficulty calculators *)

Lemma pow2_nonneg (y : Z) : 0 <= 2 ^ y.
Proof. apply Z.pow_nonneg. lia. Qed.

Lemma calcDifficultyEthPoW_floor (time : Z) (parent : Header) :
  MinimumDifficulty <= calcDifficultyEthPoW time parent.
Proof.
  unfold calcDifficultyEthPoW.
  destruct (Z.ltb_spec (Difficulty parent
    + Difficulty parent / DifficultyBoundDivisor
      * (if (if decide (UncleHash parent = EmptyUncleHash)
             then 1 - (time - Time parent) / 9
             else 2 - (time - Time parent) / 9) <? bigMinus99
         then bigMinus99
         else if decide (UncleHash parent = EmptyUncleHash)
              then 1 - (time - Time parent) / 9
              else 2 - (time - Time parent) / 9)) MinimumDifficulty); lia.
Qed.

(** The period count of the bomb, as [makeDifficultyCalculator] computes it
    from the parent's number, is the one of the block being built with the
    subtraction of the delay clamped at zero. *)
Lemma fakeBlockNumber_clamped (bombDelay : Z) (parent : Header) :
  (if bombDelay - 1 <=? Number parent then Number parent - (bombDelay - 1) else 0)
  = Z.max 0 (Number parent + 1 - bombDelay).
Proof. destruct (Z.leb_spec (bombDelay - 1) (Number parent)); lia. Qed.

Lemma makeDifficultyCalculator_split (bombDelay time : Z) (parent : Header) :
  makeDifficultyCalculator bombDelay time parent
  = calcDifficultyEthPoW time parent
    + (if 1 <? Z.max 0 (Number parent + 1 - bombDelay) / expDiffPeriod
       then 2 ^ (Z.max 0 (Number parent + 1 - bombDelay) / expDiffPeriod - 2)
       else 0).
Proof.
  unfold makeDifficultyCalculator, calcDifficultyEthPoW.
  cbv zeta. rewrite fakeBlockNumber_clamped.
  destruct (1 <? _); lia.
Qed.

Lemma makeDifficultyCalculator_floor (bombDelay time : Z) (parent : Header) :
  MinimumDifficulty <= makeDifficultyCalculator bombDelay time parent.
Proof.
  rewrite makeDifficultyCalculator_split.
  pose proof (calcDifficultyEthPoW_floor time parent).
  destruct (1 <? _); [|lia].
  pose proof (pow2_nonneg (Z.max 0 (Number parent + 1 - bombDelay) / expDiffPeriod - 2)). lia.
Qed.

Lemma calcDifficultyHomestead_floor (time : Z) (parent : Header) :
  MinimumDifficulty <= calcDifficultyHomestead time parent.
Proof.
  unfold calcDifficultyHomestead. cbv zeta.
  pose proof (pow2_nonneg ((Number parent + 1) / expDiffPeriod - 2)).
  destruct (1 <? _); destruct (_ <? MinimumDifficulty) eqn:E;
    try apply Z.ltb_ge in E; lia.
Qed.

Lemma calcDifficultyFrontier_floor (time : Z) (parent : Header) :
  MinimumDifficulty <= calcDifficultyFrontier time parent.
Proof.
  unfold calcDifficultyFrontier, BigMax. cbv zeta.
  destruct (1 <? _).
  - destruct (Z.ltb_spec
      ((if (if time - Time parent <? DurationLimit
            then Difficulty parent + Difficulty parent / DifficultyBoundDivisor
            else Difficulty parent - Difficulty parent / DifficultyBoundDivisor)
           <? MinimumDifficulty
        then MinimumDifficulty
        else if time - Time parent <? DurationLimit
             then Difficulty parent + Difficulty parent / DifficultyBoundDivisor
             else Difficulty parent - Difficulty parent / DifficultyBoundDivisor)
       + 2 ^ ((Number parent + 1) / expDiffPeriod - 2)) MinimumDifficulty); lia.
  - destruct (_ <? MinimumDifficulty) eqn:E; try apply Z.ltb_ge in E; lia.
Qed.

(** On the block of the EthPoW fork the difficulty is reset to one. *)
Lemma CalcDifficulty_fork_block (E : Z) (config : ChainConfig) (time : Z) (parent : Header) :
  EthPoWForkBlock config = Some (Number parent + 1) ->
  CalcDifficulty E config time parent = 1.
Proof.
  intros H. unfold CalcDifficulty, IsEthPoWFork, isForked. cbv zeta. rewrite H.
  rewrite Z.leb_refl.
  replace (Number parent + 1 + 2048 =? Number parent + 1) with false
    by (symmetry; apply Z.eqb_neq; lia).
  by rewrite Z.eqb_refl.
Qed.

(** 2048 blocks later it restarts from [params.ETHWStartDifficulty]. *)
Lemma CalcDifficulty_restart_block (E : Z) (config : ChainConfig) (time : Z) (parent : Header) :
  EthPoWForkBlock config = Some (Number parent + 1 - 2048) ->
  CalcDifficulty E config time parent = E.
Proof.
  intros H. unfold CalcDifficulty, IsEthPoWFork, isForked. cbv zeta. rewrite H.
  replace (Number parent + 1 - 2048 <=? Number parent + 1) with true
    by (symmetry; apply Z.leb_le; lia).
  replace (Number parent + 1 - 2048 + 2048 =? Number parent + 1) with true
    by (symmetry; apply Z.eqb_eq; lia).
  done.
Qed.

(** Everywhere else the result is one of the floored formulas. *)
Lemma CalcDifficulty_floor (E : Z) (config : ChainConfig) (time : Z) (parent : Header) :
  EthPoWForkBlock config <> Some (Number parent + 1) ->
  EthPoWForkBlock config <> Some (Number parent + 1 - 2048) ->
  MinimumDifficulty <= CalcDifficulty E config time parent.
Proof.
  intros Hfork Hrestart. unfold CalcDifficulty. cbv zeta.
  destruct (IsEthPoWFork config (Number parent + 1)).
  - destruct (EthPoWForkBlock config) as [b|] eqn:Hb.
    + destruct (Z.eqb_spec (b + 2048) (Number parent + 1)) as [e|_].
      { exfalso. apply Hrestart. f_equal. lia. }
      destruct (Z.eqb_spec b (Number parent + 1)) as [e|_].
      { exfalso. apply Hfork. by f_equal. }
      apply calcDifficultyEthPoW_floor.
    + apply calcDifficultyEthPoW_floor.
  - repeat match goal with
           | |- context [if ?c then _ else _] => destruct c
           end;
      first [ apply makeDifficultyCalculator_floor
            | apply calcDifficultyHomestead_floor
            | apply calcDifficultyFrontier_floor ].
Qed.

(** C1, as stated, fails: on the block of the EthPoW fork [CalcDifficulty]
    returns one, which is below the minimum difficulty. *)
Lemma CalcDifficulty_below_minimum_at_fork :
  CalcDifficulty 1000000000 forkAtFive 1013 blockFour = 1
  /\ 1 < MinimumDifficulty.
Proof. split; reflexivity. Qed.

(** C1 (amended): [CalcDifficulty] never returns less than the minimum
    difficulty, in any epoch, except on the two reset blocks of the EthPoW
    fork: on the fork block itself it returns one, and 2048 blocks later it
    returns the constant [ETHWStartDifficulty]. *)
Theorem CalcDifficulty_minimum (E : Z) (config : ChainConfig) (time : Z) (parent : Header) :
  (EthPoWForkBlock config <> Some (Number parent + 1) ->
   EthPoWForkBlock config <> Some (Number parent + 1 - 2048) ->
   MinimumDifficulty <= CalcDifficulty E config time parent)
  /\ (EthPoWForkBlock config = Some (Number parent + 1) ->
      CalcDifficulty E config time parent = 1)
  /\ (EthPoWForkBlock config = Some (Number parent + 1 - 2048) ->
      CalcDifficulty E config time parent = E).
Proof.
  split; [|split].
  - apply CalcDifficulty_floor.
  - apply CalcDifficulty_fork_block.
  - apply CalcDifficulty_restart_block.
Qed.

(** C2, as stated, fails: on the block of the EthPoW fork the base
    difficulty is one, and the hybrid calculation with all three factors
    zero returns 131072. *)
Lemma CalcCustomDifficulty_zero_factors_differs :
  CalcDifficulty 1000000000 forkAtFive 1013 blockFour = 1
  /\ CalcCustomDifficulty 1000000000 forkAtFive 1013 blockFour 0 0 0 = 131072.
Proof. split; reflexivity. Qed.

Lemma CalcCustomDifficulty_zero (E : Z) (config : ChainConfig) (time : Z) (parent : Header) :
  CalcCustomDifficulty E config time parent 0 0 0
  = if CalcDifficulty E config time parent <? minimumDifficulty
    then minimumDifficulty
    else CalcDifficulty E config time parent.
Proof.
  unfold CalcCustomDifficulty. cbv zeta.
  rewrite !Z.mul_0_r, Z.div_0_l by (unfold totalWeight; lia).
  by rewrite !Z.add_0_r.
Qed.

(** C2 (amended): with all three factors zero [CalcCustomDifficulty] returns
    the base difficulty of [CalcDifficulty] floored at [minimumDifficulty]:
    the base itself when that is at least 131072, which it is on every block
    but the two reset blocks of the EthPoW fork, and 131072 otherwise. *)
Theorem CalcCustomDifficulty_zero_factors (E : Z) (config : ChainConfig) (time : Z)
    (parent : Header) :
  (minimumDifficulty <= CalcDifficulty E config time parent ->
   CalcCustomDifficulty E config time parent 0 0 0 = CalcDifficulty E config time parent)
  /\ (CalcDifficulty E config time parent < minimumDifficulty ->
      CalcCustomDifficulty E config time parent 0 0 0 = minimumDifficulty)
  /\ (EthPoWForkBlock config <> Some (Number parent + 1) ->
      EthPoWForkBlock config <> Some (Number parent + 1 - 2048) ->
      CalcCustomDifficulty E config time parent 0 0 0 = CalcDifficulty E config time parent).
Proof.
  rewrite CalcCustomDifficulty_zero.
  split; [|split].
  - intros H. destruct (Z.ltb_spec (CalcDifficulty E config time parent) minimumDifficulty); lia.
  - intros H. destruct (Z.ltb_spec (CalcDifficulty E config time parent) minimumDifficulty); lia.
  - intros Hfork Hrestart.
    pose proof (CalcDifficulty_floor E config time parent Hfork Hrestart) as H.
    change MinimumDifficulty with minimumDifficulty in H.
    destruct (Z.ltb_spec (CalcDifficulty E config time parent) minimumDifficulty); lia.
Qed.

(** C3: in the calculators made by [makeDifficultyCalculator] the bomb adds
    nothing while the period count is at most one and adds
    [2 ^ (periodCount - 2)] from two on, the period count being
    [max 0 (blockNumber - bombDelay) / 100000] for the block being built;
    what it is added to is the floored Byzantium adjustment, which is what
    [calcDifficultyEthPoW] computes. *)
Theorem difficulty_bomb_term (bombDelay time : Z) (parent : Header) :
  (Z.max 0 (Number parent + 1 - bombDelay) / 100000 <= 1 ->
   makeDifficultyCalculator bombDelay time parent = calcDifficultyEthPoW time parent + 0)
  /\ (2 <= Z.max 0 (Number parent + 1 - bombDelay) / 100000 ->
      makeDifficultyCalculator bombDelay time parent
      = calcDifficultyEthPoW time parent
        + 2 ^ (Z.max 0 (Number parent + 1 - bombDelay) / 100000 - 2)).
Proof.
  rewrite makeDifficultyCalculator_split. change expDiffPeriod with 100000.
  split; intros H.
  - destruct (Z.ltb_spec 1 (Z.max 0 (Number parent + 1 - bombDelay) / 100000)); lia.
  - destruct (Z.ltb_spec 1 (Z.max 0 (Number parent + 1 - bombDelay) / 100000)); lia.
Qed.

(** ** Rewards *)

Lemma GetBalance_AddBalance (state : gmap Address Z) (a b : Address) (amount : Z) :
  GetBalance (AddBalance a amount state) b
  = GetBalance state b + (if decide (a = b) then amount else 0).
Proof.
  unfold AddBalance, GetBalance at 1.
  destruct (decide (a = b)) as [->|Hne].
  - rewrite lookup_insert_eq. simpl. reflexivity.
  - rewrite lookup_insert_ne by done. fold (GetBalance state b). lia.
Qed.

(** What the loop over the uncles credits to [addr]. *)
Lemma rewardUncle_loop (blockReward powReward : Z) (header : Header) (uncles : list Header) :
  forall (state : gmap Address Z) (reward : Z),
    (foldl (rewardUncle blockReward powReward header) (state, reward) uncles).2
    = reward + Z.of_nat (length uncles) * (powReward / 32)
    /\ forall addr : Address,
        GetBalance (foldl (rewardUncle blockReward powReward header) (state, reward) uncles).1 addr
        = GetBalance state addr
          + foldr (fun uncle acc =>
                     (if decide (Coinbase uncle = addr)
                      then (Number uncle + 8 - Number header) * blockReward / 8
                      else 0) + acc) 0 uncles.
Proof.
  induction uncles as [|uncle uncles IH]; intros state reward.
  - simpl. split; [lia|]. intros addr. lia.
  - cbn [foldl foldr length]. unfold rewardUncle at 2 4. cbv zeta.
    destruct (IH (AddBalance (Coinbase uncle)
                    ((Number uncle + 8 - Number header) * blockReward / 8) state)
                 (reward + powReward / 32)) as [Hr Hs].
    split.
    + rewrite Hr. lia.
    + intros addr. rewrite Hs, GetBalance_AddBalance. lia.
Qed.

(** C7: after [accumulateRewards] the balance of every address has grown
    by [(uncleNumber + 8 - blockNumber) * blockReward / 8] for each uncle it
    is the beneficiary of and, when it is the block's beneficiary, by the
    block reward plus [blockReward / 32] for each uncle; the block reward is
    the fixed 10^18. *)
Theorem accumulateRewards_credits (config : ChainConfig) (state : gmap Address Z)
    (header : Header) (uncles : list Header) (addr : Address) :
  GetBalance (accumulateRewards config state header uncles) addr
  = GetBalance state addr
    + foldr (fun uncle acc =>
               (if decide (Coinbase uncle = addr)
                then (Number uncle + 8 - Number header) * 1000000000000000000 / 8
                else 0) + acc) 0 uncles
    + (if decide (Coinbase header = addr)
       then 1000000000000000000
            + Z.of_nat (length uncles) * (1000000000000000000 / 32)
       else 0).
Proof.
  unfold accumulateRewards. cbv zeta.
  destruct (rewardUncle_loop 1000000000000000000 1000000000000000000 header uncles
              state 1000000000000000000) as [Hr Hs].
  destruct (foldl _ _ uncles) as [state' reward'] eqn:E. simpl in Hr, Hs.
  unfold distributePoSPoTRewards, getPoSAndPoTParticipants. cbn [foldl].
  rewrite GetBalance_AddBalance, Hs, Hr. reflexivity.
Qed.

(** ** The stake registry *)

Lemma pos_Add_zero (h : gmap positive Z) (x y : positive) :
  is_Some (h !! x) -> h !! y = Some 0 -> pos.Add h x y = Some h.
Proof.
  intros [a Ha] Hy. unfold pos.Add. rewrite Ha, Hy. simpl.
  f_equal. rewrite Z.add_0_r. by apply insert_id.
Qed.

(** One call with a zero stake changes no number. *)
Lemma UpdateValidator_zero (p : pos.PoS) (h : gmap positive Z) (address : Address)
    (zero : positive) (n : Z) :
  h !! zero = Some 0 ->
  is_Some (h !! pos.TotalStake p) ->
  (forall a v, pos.Validators p !! a = Some v -> is_Some (h !! pos.Stake v)) ->
  exists p',
    pos.UpdateValidator p address zero n h = Some (p', h)
    /\ pos.TotalStake p' = pos.TotalStake p
    /\ (forall a v, pos.Validators p' !! a = Some v -> is_Some (h !! pos.Stake v))
    /\ pos.stakeOf p' h address = pos.stakeOf p h address.
Proof.
  intros Hz Ht Hv. unfold pos.UpdateValidator, pos.stakeOf.
  destruct (pos.Validators p !! address) as [v|] eqn:Hlook.
  - rewrite (pos_Add_zero h (pos.Stake v) zero) by eauto. simpl.
    eexists. split; [reflexivity|]. simpl. split; [reflexivity|]. split.
    + intros a v' Ha. destruct (decide (address = a)) as [->|Hne].
      * rewrite lookup_insert_eq in Ha. inversion Ha; subst. simpl. eauto.
      * rewrite lookup_insert_ne in Ha by done. eauto.
    + by rewrite lookup_insert_eq.
  - rewrite (pos_Add_zero h (pos.TotalStake p) zero) by eauto. simpl.
    eexists. split; [reflexivity|]. simpl. split; [reflexivity|]. split.
    + intros a v' Ha. destruct (decide (address = a)) as [->|Hne].
      * rewrite lookup_insert_eq in Ha. inversion Ha; subst. simpl. eauto.
      * rewrite lookup_insert_ne in Ha by done. eauto.
    + rewrite lookup_insert_eq. simpl. unfold pos.value. by rewrite Hz.
Qed.

(** C8: two calls [UpdateValidator(addr, 0, n)], whatever the [big.Int]s
    holding the two zeros, go through and leave the numbers behind all
    pointers as they were; so [TotalStake] and the stake of [addr] (zero for
    an address without validator) end where they started. *)
Theorem UpdateValidator_zero_twice (p : pos.PoS) (h : gmap positive Z) (address : Address)
    (zero1 zero2 : positive) (n : Z) :
  h !! zero1 = Some 0 ->
  h !! zero2 = Some 0 ->
  is_Some (h !! pos.TotalStake p) ->
  (forall a v, pos.Validators p !! a = Some v -> is_Some (h !! pos.Stake v)) ->
  exists p1 p2,
    pos.UpdateValidator p address zero1 n h = Some (p1, h)
    /\ pos.UpdateValidator p1 address zero2 n h = Some (p2, h)
    /\ pos.totalStake p1 h = pos.totalStake p h
    /\ pos.totalStake p2 h = pos.totalStake p h
    /\ pos.stakeOf p1 h address = pos.stakeOf p h address
    /\ pos.stakeOf p2 h address = pos.stakeOf p h address.
Proof.
  intros H1 H2 Ht Hv.
  destruct (UpdateValidator_zero p h address zero1 n H1 Ht Hv) as (p1 & E1 & T1 & V1 & S1).
  rewrite <- T1 in Ht.
  destruct (UpdateValidator_zero p1 h address zero2 n H2 Ht V1) as (p2 & E2 & T2 & V2 & S2).
  exists p1, p2. unfold pos.totalStake.
  rewrite T2, T1, S2, S1. done.
Qed.

Lemma NewPoS_owned (h0 : gmap positive Z) :
  pos.owned h0 (pos.NewPoS h0).1 (pos.NewPoS h0).2
  /\ pos.Validators (pos.NewPoS h0).1 = ∅
  /\ pos.totalStake (pos.NewPoS h0).1 (pos.NewPoS h0).2 = 0.
Proof.
  unfold pos.NewPoS, pos.owned, pos.totalStake, pos.value. simpl.
  assert (h0 !! fresh (dom h0) = None) as Hfresh.
  { apply not_elem_of_dom. apply is_fresh. }
  repeat split.
  - done.
  - rewrite lookup_insert_eq. eauto.
  - intros l Hl. destruct (decide (fresh (dom h0) = l)) as [<-|Hne].
    + rewrite Hfresh in Hl. by destruct Hl.
    + by rewrite lookup_insert_ne.
  - intros a v Ha. by rewrite lookup_empty in Ha.
  - by rewrite lookup_insert_eq.
Qed.

(** One call on a registry that owns its aggregate, with a stake of the
    caller's: it goes through, the aggregate grows by the amount passed when
    the address is new and not at all otherwise, and the stake of an address
    that has a validator grows by the amount passed. *)
Lemma UpdateValidator_owned (h0 h : gmap positive Z) (p : pos.PoS) (address : Address)
    (stake : positive) (blockNumber : Z) :
  pos.owned h0 p h ->
  is_Some (h0 !! stake) ->
  exists p' h',
    pos.UpdateValidator p address stake blockNumber h = Some (p', h')
    /\ pos.owned h0 p' h'
    /\ pos.totalStake p' h'
       = pos.totalStake p h
         + match pos.Validators p !! address with
           | None => pos.value h stake
           | Some _ => 0
           end
    /\ (is_Some (pos.Validators p !! address) ->
        pos.stakeOf p' h' address = pos.stakeOf p h address + pos.value h stake).
Proof.
  intros (Hfresh & [t Ht] & Hsub & Hval) Hstake.
  destruct (Hsub stake Hstake) as [s Hs].
  unfold pos.UpdateValidator, pos.stakeOf.
  destruct (pos.Validators p !! address) as [v|] eqn:Hlook.
  - destruct (Hsub _ (Hval _ _ Hlook)) as [a Ha].
    assert (pos.Stake v <> pos.TotalStake p) as Hne.
    { intros E. destruct (Hval _ _ Hlook) as [x Hx]. rewrite E in Hx. congruence. }
    unfold pos.Add. rewrite Ha, Hs. simpl.
    eexists _, _. split; [reflexivity|]. split; [|split].
    + unfold pos.owned. simpl. repeat split.
      * done.
      * rewrite lookup_insert_ne by done. eauto.
      * intros l Hl. destruct (decide (pos.Stake v = l)) as [<-|Hn].
        -- rewrite lookup_insert_eq. eauto.
        -- rewrite lookup_insert_ne by done. eauto.
      * intros a' v' Ha'. destruct (decide (address = a')) as [<-|Hn].
        -- rewrite lookup_insert_eq in Ha'. inversion Ha'; subst. simpl. eauto.
        -- rewrite lookup_insert_ne in Ha' by done. eauto.
    + unfold pos.totalStake, pos.value. simpl.
      rewrite lookup_insert_ne by done. lia.
    + intros _. simpl. rewrite lookup_insert_eq. simpl.
      unfold pos.value. rewrite lookup_insert_eq, Ha, Hs. reflexivity.
  - unfold pos.Add. rewrite Ht, Hs. simpl.
    eexists _, _. split; [reflexivity|]. split; [|split].
    + unfold pos.owned. simpl. repeat split.
      * done.
      * rewrite lookup_insert_eq. eauto.
      * intros l Hl. destruct (decide (pos.TotalStake p = l)) as [<-|Hn].
        -- rewrite lookup_insert_eq. eauto.
        -- rewrite lookup_insert_ne by done. eauto.
      * intros a' v' Ha'. destruct (decide (address = a')) as [<-|Hn].
        -- rewrite lookup_insert_eq in Ha'. inversion Ha'; subst. simpl. eauto.
        -- rewrite lookup_insert_ne in Ha' by done. eauto.
    + unfold pos.totalStake, pos.value. simpl.
      rewrite lookup_insert_eq, Ht, Hs. reflexivity.
    + intros [x Hx]. discriminate.
Qed.

(** What a call that goes through leaves behind. *)
Lemma UpdateValidator_shape (p p' : pos.PoS) (h h' : gmap positive Z) (address : Address)
    (stake : positive) (blockNumber : Z) :
  pos.UpdateValidator p address stake blockNumber h = Some (p', h') ->
  pos.TotalStake p' = pos.TotalStake p
  /\ match pos.Validators p !! address with
     | Some v =>
       pos.Validators p'
       = <[address := pos.mkValidator (pos.Address v) (pos.Stake v) blockNumber
                        (pos.Uptime v) (pos.IsValidator v)]> (pos.Validators p)
       /\ h' = <[pos.Stake v := pos.value h (pos.Stake v) + pos.value h stake]> h
     | None =>
       pos.Validators p'
       = <[address := pos.mkValidator address stake blockNumber 0 true]> (pos.Validators p)
       /\ h' = <[pos.TotalStake p := pos.value h (pos.TotalStake p) + pos.value h stake]> h
     end.
Proof.
  unfold pos.UpdateValidator, pos.Add, pos.value.
  destruct (pos.Validators p !! address) as [v|].
  - destruct (h !! pos.Stake v) as [x|]; [|done]. destruct (h !! stake) as [y|]; [|done].
    simpl. intros [= <- <-]. done.
  - destruct (h !! pos.TotalStake p) as [x|]; [|done]. destruct (h !! stake) as [y|]; [|done].
    simpl. intros [= <- <-]. done.
Qed.

(** The addresses that have a validator after a call. *)
Lemma UpdateValidator_registers (p p' : pos.PoS) (h h' : gmap positive Z) (address : Address)
    (stake : positive) (blockNumber : Z) :
  pos.UpdateValidator p address stake blockNumber h = Some (p', h') ->
  forall a, is_Some (pos.Validators p' !! a) <-> a = address \/ is_Some (pos.Validators p !! a).
Proof.
  intros Hcall a.
  destruct (UpdateValidator_shape _ _ _ _ _ _ _ Hcall) as [_ Hshape].
  assert (exists v, pos.Validators p' = <[address := v]> (pos.Validators p)) as [v ->].
  { destruct (pos.Validators p !! address); destruct Hshape as [-> _]; eauto. }
  destruct (decide (address = a)) as [<-|Hne].
  - rewrite lookup_insert_eq. split; [by left|by eexists].
  - rewrite lookup_insert_ne by done. split; [by right|]. intros [->|H]; done.
Qed.

(** Any calls with stakes of the caller's on a registry that owns its
    aggregate, [seen] being the addresses that have a validator: the calls go
    through and the aggregate grows by the amounts of the first calls. *)
Lemma updateAll_first_calls (h0 : gmap positive Z) (calls : list (list byte * positive * Z)) :
  forall (seen : list Address) (p : pos.PoS) (h : gmap positive Z),
    pos.owned h0 p h ->
    (forall a, a ∈ seen <-> is_Some (pos.Validators p !! a)) ->
    (forall c, c ∈ calls -> is_Some (h0 !! c.1.2)) ->
    exists p' h',
      pos.updateAll calls p h = Some (p', h')
      /\ pos.owned h0 p' h'
      /\ pos.totalStake p' h' = pos.totalStake p h + pos.firstCallAmounts seen calls p h
      /\ forall a, is_Some (pos.Validators p' !! a) <-> a ∈ seen \/ a ∈ calls.*1.*1.
Proof.
  induction calls as [|[[address stake] blockNumber] calls IH]; intros seen p h Hown Hseen Hcalls.
  - exists p, h. simpl. split; [done|]. split; [done|]. split; [lia|].
    intros a. rewrite <- Hseen. split; [by left|]. intros [H|H]; [done|by apply elem_of_nil in H].
  - assert (is_Some (h0 !! stake)) as Hstake.
    { apply (Hcalls (address, stake, blockNumber)). by left. }
    destruct (UpdateValidator_owned h0 h p address stake blockNumber Hown Hstake)
      as (p1 & h1 & E1 & Hown1 & Htotal1 & _).
    pose proof (UpdateValidator_registers _ _ _ _ _ _ _ E1) as Hreg.
    destruct (IH (address :: seen) p1 h1 Hown1) as (p' & h' & E' & Hown' & Htotal' & Hdom').
    { intros a. rewrite Hreg, elem_of_cons, Hseen. done. }
    { intros c Hc. apply Hcalls. by right. }
    exists p', h'. cbn [pos.updateAll pos.firstCallAmounts]. rewrite E1.
    split; [done|]. split; [done|]. split.
    + rewrite Htotal', Htotal1.
      destruct (decide (address ∈ seen)) as [Hin|Hnew].
      * apply Hseen in Hin as [v ->]. lia.
      * destruct (pos.Validators p !! address) eqn:Hl; [|lia].
        exfalso. apply Hnew, Hseen. by eexists.
    + intros a. rewrite Hdom'. cbn [fmap list_fmap]. rewrite !elem_of_cons. simpl. tauto.
Qed.

(** With a [big.Int] of its own for every call, the amount a call passes is
    the number its stake held at the start. *)
Lemma firstCallAmounts_initial (h0 : gmap positive Z) (calls : list (list byte * positive * Z)) :
  forall (seen : list Address) (p : pos.PoS) (h : gmap positive Z),
    pos.owned h0 p h ->
    (forall a, a ∈ seen <-> is_Some (pos.Validators p !! a)) ->
    (forall c, c ∈ calls -> is_Some (h0 !! c.1.2)) ->
    NoDup (calls.*1.*2) ->
    (forall a v, pos.Validators p !! a = Some v -> pos.Stake v ∉ calls.*1.*2) ->
    (forall c, c ∈ calls -> h !! c.1.2 = h0 !! c.1.2) ->
    pos.firstCallAmounts seen calls p h
    = foldr (fun c acc => pos.value h0 c.1.2 + acc) 0 (pos.firstCalls seen calls).
Proof.
  induction calls as [|[[address stake] blockNumber] calls IH];
    intros seen p h Hown Hseen Hcalls Hnodup Hstored Hkept; [done|].
  cbn [fmap list_fmap] in Hnodup, Hstored. simpl in Hnodup, Hstored.
  apply NoDup_cons in Hnodup as [Hstake_new Hnodup].
  assert (is_Some (h0 !! stake)) as Hstake.
  { apply (Hcalls (address, stake, blockNumber)). by left. }
  destruct (UpdateValidator_owned h0 h p address stake blockNumber Hown Hstake)
    as (p1 & h1 & E1 & Hown1 & _ & _).
  pose proof (UpdateValidator_registers _ _ _ _ _ _ _ E1) as Hreg.
  destruct (UpdateValidator_shape _ _ _ _ _ _ _ E1) as [_ Hshape].
  assert (pos.value h stake = pos.value h0 stake) as Hamount.
  { pose proof (Hkept (address, stake, blockNumber)) as Hk. simpl in Hk.
    unfold pos.value. rewrite Hk; [done|by left]. }
  cbn [pos.firstCallAmounts pos.firstCalls]. rewrite E1. simpl.
  assert (pos.firstCallAmounts (address :: seen) calls p1 h1
          = foldr (fun c acc => pos.value h0 c.1.2 + acc) 0
                  (pos.firstCalls (address :: seen) calls)) as Hrest.
  { apply IH; try done.
    - intros a. rewrite Hreg, elem_of_cons, Hseen. done.
    - intros c Hc. apply Hcalls. by right.
    - intros a v Hv. destruct (pos.Validators p !! address) as [w|] eqn:Hw;
        destruct Hshape as [Hval _]; rewrite Hval in Hv.
      + destruct (decide (address = a)) as [<-|Hne].
        * rewrite lookup_insert_eq in Hv. inversion Hv; subst v. simpl.
          intros Hin. apply (Hstored _ _ Hw). by right.
        * rewrite lookup_insert_ne in Hv by done.
          intros Hin. apply (Hstored _ _ Hv). by right.
      + destruct (decide (address = a)) as [<-|Hne].
        * rewrite lookup_insert_eq in Hv. inversion Hv; subst v. simpl. done.
        * rewrite lookup_insert_ne in Hv by done.
          intros Hin. apply (Hstored _ _ Hv). by right.
    - intros c Hc. rewrite <- (Hkept c) by (by right).
      assert (c.1.2 ∈ calls.*1.*2) as Hptr.
      { apply list_elem_of_fmap. exists c.1. split; [done|].
        apply list_elem_of_fmap. by exists c. }
      destruct (pos.Validators p !! address) as [w|] eqn:Hw; destruct Hshape as [_ ->].
      + rewrite lookup_insert_ne; [done|]. intros Heq.
        apply (Hstored _ _ Hw). right. by rewrite Heq.
      + rewrite lookup_insert_ne; [done|]. intros Heq.
        destruct Hown as [Hfresh _].
        assert (is_Some (h0 !! c.1.2)) as [x Hx] by (apply Hcalls; by right).
        rewrite <- Heq, Hfresh in Hx. done. }
  destruct (decide (address ∈ seen)) as [Hin|Hnew].
  - rewrite Hrest. done.
  - cbn [foldr]. simpl. rewrite Hrest, Hamount. done.
Qed.

(** C9 (amended): whatever calls of [UpdateValidator] a fresh registry
    receives, with stakes that are the caller's own [big.Int]s and not the
    registry's aggregate, they all go through and [TotalStake] is the sum of
    the amounts passed in each address's first call only, the first calls
    being those the call list shows; where every call passes a [big.Int] of
    its own, these amounts are the numbers the caller's [big.Int]s held at
    the start.  A further call for an address that an earlier call named adds
    the amount passed to that validator's stake and leaves [TotalStake] as it
    is. *)
Theorem TotalStake_counts_first_calls (h0 : gmap positive Z)
    (calls : list (list byte * positive * Z)) :
  (forall c, c ∈ calls -> is_Some (h0 !! c.1.2)) ->
  exists p h,
    pos.updateAll calls (pos.NewPoS h0).1 (pos.NewPoS h0).2 = Some (p, h)
    /\ pos.totalStake p h
       = pos.firstCallAmounts [] calls (pos.NewPoS h0).1 (pos.NewPoS h0).2
    /\ (NoDup (calls.*1.*2) ->
        pos.totalStake p h
        = foldr (fun c acc => pos.value h0 c.1.2 + acc) 0 (pos.firstCalls [] calls))
    /\ forall address stake blockNumber,
        address ∈ calls.*1.*1 ->
        is_Some (h0 !! stake) ->
        exists p' h',
          pos.UpdateValidator p address stake blockNumber h = Some (p', h')
          /\ pos.totalStake p' h' = pos.totalStake p h
          /\ pos.stakeOf p' h' address = pos.stakeOf p h address + pos.value h stake.
Proof.
  intros Hcalls.
  destruct (NewPoS_owned h0) as (Hown & Hempty & Hzero).
  assert (forall a, a ∈ [] <-> is_Some (pos.Validators (pos.NewPoS h0).1 !! a)) as Hseen.
  { intros a. rewrite Hempty, lookup_empty. split; [by intros H%elem_of_nil|by intros [? ?]]. }
  destruct (updateAll_first_calls h0 calls [] _ _ Hown Hseen Hcalls)
    as (p & h & E & Hown' & Htotal & Hdom).
  exists p, h. split; [done|]. split; [lia|]. split.
  - intros Hnodup. rewrite Htotal, Hzero.
    rewrite (firstCallAmounts_initial h0 calls [] _ _ Hown Hseen Hcalls Hnodup); [lia| |].
    + intros a v Hv. rewrite Hempty, lookup_empty in Hv. done.
    + intros c Hc. destruct (Hcalls c Hc) as [x Hx]. simpl.
      rewrite lookup_insert_ne; [done|]. intros Heq.
      destruct Hown as [Hfresh _]. simpl in Hfresh. rewrite Heq, Hx in Hfresh. done.
  - intros address stake blockNumber Hreg Hstake.
    assert (is_Some (pos.Validators p !! address)) as [v Hv] by (apply Hdom; by right).
    destruct (UpdateValidator_owned h0 h p address stake blockNumber Hown' Hstake)
      as (p' & h' & E' & _ & Htotal' & Hstake').
    exists p', h'. split; [done|]. split.
    + rewrite Htotal', Hv. lia.
    + apply Hstake'. by eexists.
Qed.

Lemma UpdateValidator_zero_twice_sample :
  exists p1 p2,
    pos.UpdateValidator sampleRegistry alice 1%positive 9 sampleHeap = Some (p1, sampleHeap)
    /\ pos.UpdateValidator p1 alice 1%positive 9 sampleHeap = Some (p2, sampleHeap)
    /\ pos.totalStake p1 sampleHeap = pos.totalStake sampleRegistry sampleHeap
    /\ pos.totalStake p2 sampleHeap = pos.totalStake sampleRegistry sampleHeap
    /\ pos.stakeOf p1 sampleHeap alice = pos.stakeOf sampleRegistry sampleHeap alice
    /\ pos.stakeOf p2 sampleHeap alice = pos.stakeOf sampleRegistry sampleHeap alice.
Proof.
  apply (UpdateValidator_zero_twice sampleRegistry sampleHeap alice 1%positive 1%positive 9).
  - reflexivity.
  - reflexivity.
  - exists 42. reflexivity.
  - intros a v Ha. unfold sampleRegistry in Ha. simpl in Ha.
    destruct (decide (alice = a)) as [<-|Hne].
    + rewrite lookup_insert_eq in Ha. inversion Ha; subst. exists 42. reflexivity.
    + rewrite lookup_insert_ne, lookup_empty in Ha by done. discriminate.
Defined.

Lemma sampleCalls_stakes (c : list byte * positive * Z) :
  c ∈ sampleCalls -> is_Some (callerHeap !! c.1.2).
Proof.
  intros Hc. unfold sampleCalls in Hc.
  apply elem_of_cons in Hc as [->|Hc]; [exists 5; reflexivity|].
  apply elem_of_cons in Hc as [->|Hc]; [exists 3; reflexivity|].
  by apply elem_of_nil in Hc.
Defined.

Lemma TotalStake_counts_first_calls_sample :
  exists p h,
    pos.updateAll sampleCalls (pos.NewPoS callerHeap).1 (pos.NewPoS callerHeap).2 = Some (p, h)
    /\ pos.totalStake p h
       = pos.firstCallAmounts [] sampleCalls (pos.NewPoS callerHeap).1 (pos.NewPoS callerHeap).2
    /\ (NoDup (sampleCalls.*1.*2) ->
        pos.totalStake p h
        = foldr (fun c acc => pos.value callerHeap c.1.2 + acc) 0
                (pos.firstCalls [] sampleCalls))
    /\ forall address stake blockNumber,
        address ∈ sampleCalls.*1.*1 ->
        is_Some (callerHeap !! stake) ->
        exists p' h',
          pos.UpdateValidator p address stake blockNumber h = Some (p', h')
          /\ pos.totalStake p' h' = pos.totalStake p h
          /\ pos.stakeOf p' h' address = pos.stakeOf p h address + pos.value h stake.
Proof.
  exact (TotalStake_counts_first_calls callerHeap sampleCalls sampleCalls_stakes).
Defined.

(** C9, as stated, fails when a call passes the registry's own aggregate as
    the stake: the validator then holds [TotalStake] itself, so the amount
    of the repeat call for its address, 5, is added to [TotalStake], which
    goes from 0 to 5 although the only first call passed 0. *)
Lemma TotalStake_passed_as_stake :
  exists p1 h1 p2 h2,
    pos.UpdateValidator (pos.NewPoS callerHeap).1 alice
      (pos.TotalStake (pos.NewPoS callerHeap).1) 10 (pos.NewPoS callerHeap).2 = Some (p1, h1)
    /\ pos.totalStake p1 h1 = 0
    /\ pos.value h1 1%positive = 5
    /\ pos.UpdateValidator p1 alice 1%positive 11 h1 = Some (p2, h2)
    /\ pos.updateAll aggregateAsStake (pos.NewPoS callerHeap).1 (pos.NewPoS callerHeap).2
       = Some (p2, h2)
    /\ pos.firstCallAmounts [] aggregateAsStake (pos.NewPoS callerHeap).1 (pos.NewPoS callerHeap).2
       = 0
    /\ pos.totalStake p2 h2 = 5.
Proof.
  eexists _, _, _, _. split; [vm_compute; reflexivity|].
  split; [vm_compute; reflexivity|]. split; [vm_compute; reflexivity|].
  split; [vm_compute; reflexivity|]. split; [vm_compute; reflexivity|].
  split; vm_compute; reflexivity.
Qed.

(** After a first call with 5 and a second with 3 for the same address,
    [TotalStake] is 5 and the only validator's stake is 8. *)
Lemma TotalStake_is_not_the_sum_of_stakes :
  exists p h,
    pos.updateAll sampleCalls (pos.NewPoS callerHeap).1 (pos.NewPoS callerHeap).2 = Some (p, h)
    /\ pos.totalStake p h = 5
    /\ pos.stakeOf p h alice = 8
    /\ pos.sumStakes p h = 8.
Proof.
  eexists _, _. split; [vm_compute; reflexivity|].
  repeat split; vm_compute; reflexivity.
Qed.

(** ** The transaction registry *)

Lemma wrap64_succ (z : Z) : wrap64 (wrap64 z + 1) = wrap64 (z + 1).
Proof. unfold wrap64. apply Z.add_mod_idemp_l. unfold uint64_modulus. lia. Qed.

Lemma wrap64_small (z : Z) : 0 <= z < 2 ^ 64 -> wrap64 z = z.
Proof. intros H. unfold wrap64, uint64_modulus. by apply Z.mod_small. Qed.

(** One call: a new address adds a record and counts; a known one only has
    its own record rewritten. *)
Lemma RecordTransaction_step (t : pot.PoT) (address : Address) (blockNumber : Z) :
  pot.TotalTransactions t = wrap64 (Z.of_nat (size (pot.TransactionRecords t))) ->
  pot.TotalTransactions (pot.RecordTransaction t address blockNumber)
  = wrap64 (Z.of_nat (size (pot.TransactionRecords (pot.RecordTransaction t address blockNumber))))
  /\ dom (pot.TransactionRecords (pot.RecordTransaction t address blockNumber))
     = {[address]} ∪ dom (pot.TransactionRecords t).
Proof.
  intros H. unfold pot.RecordTransaction.
  destruct (pot.TransactionRecords t !! address) as [record|] eqn:Hlook; simpl.
  - split.
    + rewrite H. f_equal. f_equal.
      rewrite <- !size_dom, dom_insert_L.
      f_equal. apply elem_of_dom_2 in Hlook. set_solver.
    + by rewrite dom_insert_L.
  - split.
    + rewrite H, wrap64_succ. f_equal.
      rewrite map_size_insert_None by done. lia.
    + by rewrite dom_insert_L.
Qed.

Lemma recordAll_counts (calls : list (list byte * Z)) :
  forall t : pot.PoT,
    pot.TotalTransactions t = wrap64 (Z.of_nat (size (pot.TransactionRecords t))) ->
    pot.TotalTransactions (pot.recordAll calls t)
    = wrap64 (Z.of_nat (size (pot.TransactionRecords (pot.recordAll calls t))))
    /\ dom (pot.TransactionRecords (pot.recordAll calls t))
       = list_to_set calls.*1 ∪ dom (pot.TransactionRecords t).
Proof.
  induction calls as [|[address blockNumber] calls IH]; intros t H.
  - simpl. split; [done|]. set_solver.
  - unfold pot.recordAll. cbn [foldl fst snd].
    destruct (RecordTransaction_step t address blockNumber H) as [Hc Hd].
    destruct (IH _ Hc) as [Hc' Hd']. unfold pot.recordAll in Hc', Hd'.
    split; [done|]. rewrite Hd', Hd. cbn [fmap list_fmap fst list_to_set]. set_solver.
Qed.

Lemma size_list_to_set_le (l : list (list byte)) :
  (size (list_to_set l : gset (list byte)) <= length l)%nat.
Proof.
  induction l as [|a l IH].
  - rewrite list_to_set_nil, size_empty. done.
  - rewrite list_to_set_cons. cbn [length].
    destruct (decide (a ∈ (list_to_set l : gset (list byte)))) as [Hin|Hnin].
    + replace ({[a]} ∪ list_to_set l) with (list_to_set l : gset (list byte)) by set_solver.
      lia.
    + rewrite size_union by set_solver. rewrite size_singleton. lia.
Qed.

(** C10: after any calls of [RecordTransaction] on a fresh registry the
    addresses that have a record are the addresses of the calls, and
    [TotalTransactions] is their number (as a [uint64]: exactly their number
    for fewer than 2^64 calls); a further call for an address that has a
    record leaves [TotalTransactions] and the set of addresses as they are
    and adds one to that record's [TransactionCount] alone. *)
Theorem TotalTransactions_counts_addresses (calls : list (list byte * Z)) :
  dom (pot.TransactionRecords (pot.recordAll calls pot.NewPoT)) = list_to_set calls.*1
  /\ pot.TotalTransactions (pot.recordAll calls pot.NewPoT)
     = wrap64 (Z.of_nat (size (pot.TransactionRecords (pot.recordAll calls pot.NewPoT))))
  /\ (Z.of_nat (length calls) < 2 ^ 64 ->
      pot.TotalTransactions (pot.recordAll calls pot.NewPoT)
      = Z.of_nat (size (list_to_set calls.*1 : gset (list byte))))
  /\ forall address record blockNumber,
      pot.TransactionRecords (pot.recordAll calls pot.NewPoT) !! address = Some record ->
      pot.TotalTransactions (pot.RecordTransaction (pot.recordAll calls pot.NewPoT) address blockNumber)
      = pot.TotalTransactions (pot.recordAll calls pot.NewPoT)
      /\ pot.TransactionRecords
           (pot.RecordTransaction (pot.recordAll calls pot.NewPoT) address blockNumber)
         = <[address := pot.mkTransactionRecord (pot.Address record)
                          (wrap64 (pot.TransactionCount record + 1)) blockNumber]>
             (pot.TransactionRecords (pot.recordAll calls pot.NewPoT)).
Proof.
  destruct (recordAll_counts calls pot.NewPoT) as [Hc Hd].
  { simpl. by rewrite map_size_empty. }
  assert (dom (pot.TransactionRecords (pot.recordAll calls pot.NewPoT))
          = list_to_set calls.*1) as Hdom.
  { rewrite Hd. simpl. rewrite dom_empty_L. set_solver. }
  split; [done|]. split; [done|]. split.
  - intros Hlen. rewrite Hc, <- size_dom, Hdom.
    apply wrap64_small.
    pose proof (size_list_to_set_le calls.*1) as Hle.
    rewrite length_fmap in Hle. lia.
  - intros address record blockNumber Hlook.
    unfold pot.RecordTransaction. rewrite Hlook. simpl. done.
Qed.

(** Two calls for one address: two transactions recorded, and
    [TotalTransactions] is one. *)
Lemma TotalTransactions_is_not_the_number_of_transactions :
  pot.TotalTransactions (pot.recordAll [(alice, 10); (alice, 11)] pot.NewPoT) = 1
  /\ pot.recordedTransactions (pot.recordAll [(alice, 10); (alice, 11)] pot.NewPoT) = 2
  /\ size (pot.TransactionRecords (pot.recordAll [(alice, 10); (alice, 11)] pot.NewPoT)) = 1%nat.
Proof. repeat split; vm_compute; reflexivity. Qed.

(** ** The seal *)

(** In the fake modes the seal check is short-circuited: it fails at the
    configured block number and succeeds at every other. *)
Lemma verifySeal_fake_modes (ext : Externals) (mode : Mode) (fail : Z) (gen : Z -> bool)
    (sh : option Ethash) (header : Header) (fulldag : bool) :
  isFake mode = true ->
  verifySeal ext (mkEthash mode fail gen sh) header fulldag
  = if fail =? Uint64 (Number header) then Some errInvalidPoW else None.
Proof. intros Hfake. simpl. by rewrite Hfake. Qed.

(** An engine hands the seal check to the engine [sealer] names. *)
Lemma verifySeal_sealer (ext : Externals) (ethash : Ethash) (header : Header) (fulldag : bool) :
  verifySeal ext ethash header fulldag = verifySeal ext (sealer ethash) header fulldag
  /\ (isFake (PowMode (sealer ethash)) = false -> shared (sealer ethash) = None).
Proof.
  revert ethash. fix IH 1. intros [mode fail gen sh]. cbn [verifySeal sealer].
  destruct (isFake mode) eqn:Hfake.
  - split; [simpl; by rewrite Hfake|]. simpl. by rewrite Hfake.
  - destruct sh as [sharedEngine|].
    + apply IH.
    + split; [simpl; by rewrite Hfake|done].
Qed.

(** C6: outside the test modes that short-circuit the check, that is, for
    every engine whose seal check is not done by an engine in a fake mode,
    [verifySeal] rejects at once with the invalid-difficulty error a header
    whose difficulty is zero or less; otherwise it rejects with the
    invalid-mix-digest error exactly when the computed digest differs from
    the header's mix digest, then with the invalid-PoW error exactly when the
    computed result read as an integer exceeds [2^256 / difficulty], and
    succeeds otherwise.  The digest and the result come from the full dataset
    when that is asked for and generated, and from the light cache
    otherwise. *)
Theorem verifySeal_in_order (ext : Externals) (ethash : Ethash) (header : Header)
    (fulldag : bool) (digest result : list byte) :
  isFake (PowMode (sealer ethash)) = false ->
  (if fulldag && generated (sealer ethash) (Uint64 (Number header))
   then hashimotoFull ext (Uint64 (Number header)) (SealHash ext header) (Nonce header)
   else hashimotoLight ext
          (if decide (PowMode (sealer ethash) = ModeTest) then 32 * 1024
           else datasetSize ext (Uint64 (Number header)))
          (Uint64 (Number header)) (SealHash ext header) (Nonce header))
  = (digest, result) ->
  verifySeal ext ethash header fulldag
  = (if Difficulty header <=? 0 then Some errInvalidDifficulty
     else if bool_decide (digest <> MixDigest header) then Some errInvalidMixDigest
     else if two256 / Difficulty header <? SetBytes result then Some errInvalidPoW
     else None)
  /\ (verifySeal ext ethash header fulldag = Some errInvalidDifficulty
      <-> Difficulty header <= 0)
  /\ (0 < Difficulty header ->
      (verifySeal ext ethash header fulldag = Some errInvalidMixDigest
       <-> digest <> MixDigest header)
      /\ (digest = MixDigest header ->
          (verifySeal ext ethash header fulldag = Some errInvalidPoW
           <-> two256 / Difficulty header < SetBytes result)
          /\ (verifySeal ext ethash header fulldag = None
              <-> SetBytes result <= two256 / Difficulty header))).
Proof.
  intros Hfake Hhash.
  destruct (verifySeal_sealer ext ethash header fulldag) as [-> Hshared].
  specialize (Hshared Hfake).
  destruct (sealer ethash) as [mode fail gen sh]. simpl in Hfake, Hshared, Hhash. subst sh.
  assert (verifySeal ext (mkEthash mode fail gen None) header fulldag
          = (if Difficulty header <=? 0 then Some errInvalidDifficulty
             else if bool_decide (digest <> MixDigest header) then Some errInvalidMixDigest
             else if two256 / Difficulty header <? SetBytes result then Some errInvalidPoW
             else None)) as Heq.
  { simpl. rewrite Hfake. destruct (Difficulty header <=? 0); [done|].
    assert ((match (if fulldag
                    then if gen (Uint64 (Number header))
                         then Some (hashimotoFull ext (Uint64 (Number header))
                                      (SealHash ext header) (Nonce header))
                         else None
                    else None) with
             | Some dr => dr
             | None =>
               hashimotoLight ext
                 (if decide (mode = ModeTest) then 32 * 1024
                  else datasetSize ext (Uint64 (Number header)))
                 (Uint64 (Number header)) (SealHash ext header) (Nonce header)
             end) = (digest, result)) as ->.
    { destruct fulldag; [destruct (gen _)|]; simpl in Hhash |- *; by rewrite Hhash. }
    unfold bytes_Equal.
    destruct (bool_decide_reflect (MixDigest header = digest)) as [Hd|Hd]; simpl.
    - by rewrite bool_decide_eq_false_2 by (intros H; by apply H).
    - by rewrite bool_decide_eq_true_2 by (intros H; by apply Hd). }
  split; [done|]. rewrite Heq. split.
  - destruct (Z.leb_spec (Difficulty header) 0) as [Hle|Hgt]; [done|].
    split; [|lia]. destruct (bool_decide _); [done|]. by destruct (_ <? _).
  - intros Hpos. replace (Difficulty header <=? 0) with false by (symmetry; apply Z.leb_gt; lia).
    split.
    + destruct (bool_decide_reflect (digest <> MixDigest header)) as [Hd|Hd]; [done|].
      split; [|done]. by destruct (_ <? _).
    + intros Hd. rewrite bool_decide_eq_false_2 by (intros H; by apply H).
      destruct (Z.ltb_spec (two256 / Difficulty header) (SetBytes result)); split; split;
        try done; lia.
Qed.

Lemma verifySeal_in_order_sample :
  verifySeal sampleExternals sharingEngine easiest false
  = (if Difficulty easiest <=? 0 then Some errInvalidDifficulty
     else if bool_decide ([x01]%byte <> MixDigest easiest) then Some errInvalidMixDigest
     else if two256 / Difficulty easiest <? SetBytes [x02]%byte then Some errInvalidPoW
     else None)
  /\ (verifySeal sampleExternals sharingEngine easiest false = Some errInvalidDifficulty
      <-> Difficulty easiest <= 0)
  /\ (0 < Difficulty easiest ->
      (verifySeal sampleExternals sharingEngine easiest false = Some errInvalidMixDigest
       <-> [x01]%byte <> MixDigest easiest)
      /\ ([x01]%byte = MixDigest easiest ->
          (verifySeal sampleExternals sharingEngine easiest false = Some errInvalidPoW
           <-> two256 / Difficulty easiest < SetBytes [x02]%byte)
          /\ (verifySeal sampleExternals sharingEngine easiest false = None
              <-> SetBytes [x02]%byte <= two256 / Difficulty easiest))).
Proof.
  apply (verifySeal_in_order sampleExternals sharingEngine easiest false).
  - reflexivity.
  - reflexivity.
Defined.

(** ** Uncles *)

(** For an uncle, [verifyHeader] does not read the clock. *)
Lemma verifyHeader_uncle_clock (E : Z) (ext : Externals) (ethash : Ethash) (chain : ChainReader)
    (header parent : Header) (seal : bool) (now1 now2 : Z) :
  verifyHeader E ext ethash chain header parent true seal now1
  = verifyHeader E ext ethash chain header parent true seal now2.
Proof. reflexivity. Qed.

(** An uncle whose hash is already known stops the loop with the
    duplicate-uncle error, once the loop reaches it: the result is the
    rejection of an uncle before it, if there is one. *)
Lemma checkUncles_known (E : Z) (ext : Externals) (ethash : Ethash) (chain : ChainReader)
    (block : Block) (unixNow : Z) (ancestors : gmap Hash Header) (uncle : Header)
    (rest : list Header) :
  forall (before : list Header) (uncles : gset Hash),
    (HeaderHash ext uncle ∈ uncles
     \/ exists earlier, earlier ∈ before /\ HeaderHash ext earlier = HeaderHash ext uncle) ->
    checkUncles E ext ethash chain block unixNow (before ++ uncle :: rest) uncles ancestors
    = match checkUncles E ext ethash chain block unixNow before uncles ancestors with
      | Some err => Some err
      | None => Some errDuplicateUncle
      end.
Proof.
  induction before as [|first before IH]; intros uncles Hknown.
  - simpl. destruct Hknown as [Hin|(earlier & Hin & _)].
    + by rewrite decide_True.
    + by apply elem_of_nil in Hin.
  - cbn [app checkUncles].
    destruct (decide (HeaderHash ext first ∈ uncles)); [done|].
    destruct (ancestors !! HeaderHash ext first); [done|].
    destruct (ancestors !! ParentHash first); [|done].
    destruct (decide (ParentHash first = ParentHash (BlockHeader block))); [done|].
    destruct (verifyHeader E ext ethash chain first h true true unixNow); [done|].
    cbn [and_then]. apply IH.
    destruct Hknown as [Hin|(earlier & Hin & Heq)].
    + left. set_solver.
    + apply elem_of_cons in Hin as [->|Hin].
      * left. rewrite <- Heq. set_solver.
      * right. eauto.
Qed.

(** The loop reads the block through its parent hash alone. *)
Lemma checkUncles_block (E : Z) (ext : Externals) (ethash : Ethash) (chain : ChainReader)
    (unixNow : Z) (todo : list Header) :
  forall (uncles : gset Hash) (ancestors : gmap Hash Header) (block1 block2 : Block),
    ParentHash (BlockHeader block1) = ParentHash (BlockHeader block2) ->
    checkUncles E ext ethash chain block1 unixNow todo uncles ancestors
    = checkUncles E ext ethash chain block2 unixNow todo uncles ancestors.
Proof.
  induction todo as [|u todo IH]; intros uncles ancestors block1 block2 Hp; [done|].
  cbn [checkUncles]. rewrite Hp.
  destruct (decide (HeaderHash ext u ∈ uncles)); [done|].
  destruct (ancestors !! HeaderHash ext u); [done|].
  destruct (ancestors !! ParentHash u); [|done].
  destruct (decide (ParentHash u = ParentHash (BlockHeader block2))); [done|].
  destruct (verifyHeader E ext ethash chain u h true true unixNow); [done|].
  cbn [and_then]. by apply IH.
Qed.

(** C5, as stated, fails: a block with the same uncle twice, the uncle's
    parent being unknown to the chain, is rejected at the first occurrence
    with the dangling-uncle error. *)
Lemma VerifyUncles_twin_orphans_dangling :
  HeaderHash sampleExternals orphan = HeaderHash sampleExternals orphan
  /\ VerifyUncles 1000000000 sampleExternals normalEngine noChain
       (mkBlock zeroDifficulty [orphan; orphan]) 2000
     = Some errDanglingUncle.
Proof. split; [reflexivity|]. vm_compute. reflexivity. Qed.

(** C5 (amended): outside the full-fake mode, a block of at most two
    uncles in which an uncle has the hash of an uncle before it, or of the
    block itself, is never accepted: [VerifyUncles] returns the rejection of
    an uncle before that occurrence if one of them is rejected on its own
    account, and the duplicate-uncle error, raised at that occurrence,
    otherwise. *)
Theorem VerifyUncles_duplicate (E : Z) (ext : Externals) (ethash : Ethash) (chain : ChainReader)
    (header : Header) (before : list Header) (uncle : Header) (rest : list Header)
    (unixNow : Z) :
  PowMode ethash <> ModeFullFake ->
  (length (before ++ uncle :: rest) <= maxUncles)%nat ->
  (HeaderHash ext uncle = HeaderHash ext header
   \/ exists earlier, earlier ∈ before /\ HeaderHash ext earlier = HeaderHash ext uncle) ->
  VerifyUncles E ext ethash chain (mkBlock header (before ++ uncle :: rest)) unixNow
  = match VerifyUncles E ext ethash chain (mkBlock header before) unixNow with
    | Some err => Some err
    | None => Some errDuplicateUncle
    end
  /\ VerifyUncles E ext ethash chain (mkBlock header (before ++ uncle :: rest)) unixNow <> None.
Proof.
  intros Hmode Hlen Hknown.
  assert (VerifyUncles E ext ethash chain (mkBlock header (before ++ uncle :: rest)) unixNow
          = match VerifyUncles E ext ethash chain (mkBlock header before) unixNow with
            | Some err => Some err
            | None => Some errDuplicateUncle
            end) as Heq.
  { unfold VerifyUncles. cbn [Uncles BlockHeader].
    rewrite !decide_False by done.
    replace (maxUncles <? length (before ++ uncle :: rest))%nat with false
      by (symmetry; apply Nat.ltb_ge; lia).
    replace (maxUncles <? length before)%nat with false
      by (symmetry; apply Nat.ltb_ge; rewrite length_app in Hlen; simpl in Hlen; lia).
    replace (length (before ++ uncle :: rest) =? 0)%nat with false
      by (symmetry; apply Nat.eqb_neq; rewrite length_app; simpl; lia).
    destruct (gatherAncestors ext chain 7 (ParentHash header)
                (wrap64 (Uint64 (Number header) - 1)) ∅ ∅) as [uncles ancestors].
    rewrite (checkUncles_known E ext ethash chain (mkBlock header (before ++ uncle :: rest))).
    - destruct before as [|first before]; [done|].
      cbn [length Nat.eqb].
      by rewrite (checkUncles_block E ext ethash chain unixNow _ _ _ _
                   (mkBlock header (first :: before))).
    - destruct Hknown as [Hself|Hearlier].
      + left. rewrite Hself. set_solver.
      + by right. }
  split; [done|].
  rewrite Heq. by destruct (VerifyUncles E ext ethash chain (mkBlock header before) unixNow).
Qed.

(** The scenario of the design document: an uncle that passes on its own,
    included twice. *)
Lemma VerifyUncles_duplicate_sample :
  VerifyUncles 1000000000 sampleExternals normalEngine twoBlocks
    (mkBlock block10 ([uncle9] ++ uncle9 :: [])) 2000
  = match VerifyUncles 1000000000 sampleExternals normalEngine twoBlocks
            (mkBlock block10 [uncle9]) 2000 with
    | Some err => Some err
    | None => Some errDuplicateUncle
    end
  /\ VerifyUncles 1000000000 sampleExternals normalEngine twoBlocks
       (mkBlock block10 ([uncle9] ++ uncle9 :: [])) 2000 <> None.
Proof.
  apply (VerifyUncles_duplicate 1000000000 sampleExternals normalEngine twoBlocks
           block10 [uncle9] uncle9 [] 2000).
  - discriminate.
  - simpl. unfold maxUncles. lia.
  - right. exists uncle9. split; [by left | reflexivity].
Defined.

Lemma VerifyUncles_accepts_then_rejects_twin :
  VerifyUncles 1000000000 sampleExternals normalEngine twoBlocks (mkBlock block10 [uncle9]) 2000
  = None
  /\ VerifyUncles 1000000000 sampleExternals normalEngine twoBlocks
       (mkBlock block10 [uncle9; uncle9]) 2000
     = Some errDuplicateUncle.
Proof. split; vm_compute; reflexivity. Qed.

(** ** The batch of headers *)

Section Batch.

Local Open Scope nat_scope.

Section PoolProofs.

Variable verify : nat -> option (option error).
Variable len : nat.
Variable res : nat -> option error.
Hypothesis verify_res : forall i, (i < len)%nat -> verify i = Some (res i).

Lemma weight_insert (ws : list worker) :
  forall (w : nat) (old new : worker),
    ws !! w = Some old ->
    (foldr (fun w acc => weight w + acc) 0 (<[w := new]> ws) + weight old
     = foldr (fun w acc => weight w + acc) 0 ws + weight new)%nat.
Proof.
  induction ws as [|x ws IH]; intros w old new Hw; [done|].
  destruct w as [|w]; simpl in *.
  - inversion Hw; subst. lia.
  - specialize (IH w old new Hw). lia.
Qed.

Lemma emit_spec (chk : list bool) (errs : list (option error)) (fuel : nat) :
  forall (o : nat) (eo : list (option error)),
    (o < len)%nat ->
    (len - o <= fuel)%nat ->
    length chk = len ->
    (forall i, chk !! i = Some true -> errs !! i = Some (res i)) ->
    (forall i, (i < o)%nat -> chk !! i = Some true) ->
    eo = res <$> seq 0 o ->
    exists o' eo' ret,
      emit fuel len chk errs o eo = Some (o', eo', ret)
      /\ (forall i, (i < o')%nat -> chk !! i = Some true)
      /\ (ret = false -> (o' < len)%nat /\ chk !! o' = Some false /\ eo' = res <$> seq 0 o')
      /\ (ret = true -> eo' = res <$> seq 0 len).
Proof.
  induction fuel as [|fuel IH]; intros o eo Ho Hfuel Hlen Hstored Hbelow Heo; [lia|].
  cbn [emit].
  destruct (chk !! o) as [[|]|] eqn:Hchk.
  - rewrite (Hstored o Hchk).
    assert (eo ++ [res o] = res <$> seq 0 (S o)) as Heo'.
    { rewrite seq_S, fmap_app, Heo. done. }
    destruct (Nat.eqb_spec o (len - 1)) as [Hlast|Hmore].
    + exists o, (eo ++ [res o]), true. split; [done|]. split; [done|]. split; [done|].
      intros _. rewrite Heo'. f_equal. f_equal. lia.
    + apply IH; try done; try lia.
      intros i Hi. destruct (decide (i = o)) as [->|]; [done|]. apply Hbelow. lia.
  - exists o, eo, false. split; [done|]. split; [done|]. split; [done|]. done.
  - apply lookup_ge_None in Hchk. lia.
Qed.

#[local] Arguments emit : simpl never.

Lemma consistent_step (ev : event) (s s' : pool) :
  consistent len res s ->
  ev <> Abort ->
  step verify len ev s = Some s' ->
  consistent len res s' /\ (workLeft len s' < workLeft len s)%nat.
Proof.
  intros [Hpan Hws Herr Hchk Hin Hnil Hcov Hwork Hsend Hdone Hsto Hout Hrun Hret] Hev.
  destruct s as [ws inil dn errs i o chk eo ret pan]. simpl in *. subst pan.
  unfold step, workLeft. simpl.
  destruct ev as [w|w|w| |]; [| | | |done].
  - (* Dispatch *)
    destruct ret; [done|]. destruct inil; [done|]. simpl.
    destruct (ws !! w) as [[| |]|] eqn:Hw; try done.
    intros [= <-]. simpl.
    assert (i <> len) as Hne by (by apply Nat.eqb_neq).
    assert (w < length ws)%nat as Hwlt by (by eapply lookup_lt_Some).
    split.
    + constructor; simpl; try done.
      * intros E. apply (f_equal length) in E. rewrite length_insert in E. simpl in E. lia.
      * lia.
      * intros j Hj. destruct (decide (j = i)) as [->|Hji].
        -- left. exists w. by rewrite list_lookup_insert_eq.
        -- destruct (Hcov j) as [[w' Hw']|[[w' Hw']|[Hd|Hc]]]; [lia| | | |].
           ++ left. exists w'. rewrite list_lookup_insert_ne; [done|]. congruence.
           ++ right. left. exists w'. rewrite list_lookup_insert_ne; [done|]. congruence.
           ++ right. right. by left.
           ++ right. right. by right.
      * intros w' j Hw'. apply list_lookup_insert_Some in Hw' as [(-> & [= <-] & _)|[_ Hw']].
        -- lia.
        -- apply Hwork in Hw'. lia.
      * intros w' j Hw'. apply list_lookup_insert_Some in Hw' as [(-> & [=] & _)|[_ Hw']].
        apply Hsend in Hw'. lia.
      * intros j Hj. apply Hdone in Hj. lia.
      * intros j [[w' Hw']|Hj]; apply Hsto.
        -- apply list_lookup_insert_Some in Hw' as [(-> & [=] & _)|[_ Hw']]. left. eauto.
        -- by right.
    + pose proof (weight_insert ws w Idle (Working i) Hw) as Hwt. simpl in Hwt. lia.
  - (* Compute *)
    destruct (ws !! w) as [[|index|]|] eqn:Hw; try done.
    assert (index < len)%nat as Hidx by (apply Hwork in Hw; lia).
    rewrite (verify_res index Hidx). unfold store.
    replace (index <? length errs)%nat with true by (symmetry; apply Nat.ltb_lt; lia).
    intros [= <-]. simpl.
    assert (w < length ws)%nat as Hwlt by (by eapply lookup_lt_Some).
    split.
    + constructor; simpl; try done.
      * intros E. apply (f_equal length) in E. rewrite length_insert in E. simpl in E. lia.
      * by rewrite length_insert.
      * intros j Hj. destruct (Hcov j Hj) as [[w' Hw']|[[w' Hw']|[Hd|Hc]]].
        -- destruct (decide (w' = w)) as [->|Hne].
           ++ right. left. exists w. rewrite list_lookup_insert_eq by done. congruence.
           ++ left. exists w'. by rewrite list_lookup_insert_ne.
        -- right. left. exists w'. rewrite list_lookup_insert_ne; [done|]. congruence.
        -- right. right. by left.
        -- right. right. by right.
      * intros w' j Hw'. apply list_lookup_insert_Some in Hw' as [(-> & [=] & _)|[_ Hw']].
        by apply Hwork in Hw'.
      * intros w' j Hw'. apply list_lookup_insert_Some in Hw' as [(-> & [= <-] & _)|[_ Hw']].
        -- by apply Hwork in Hw.
        -- by apply Hsend in Hw'.
      * intros j Hj. destruct (decide (j = index)) as [->|Hne].
        -- rewrite list_lookup_insert_eq; [done|lia].
        -- rewrite list_lookup_insert_ne by done. apply Hsto.
           destruct Hj as [[w' Hw']|Hj]; [|by right].
           apply list_lookup_insert_Some in Hw' as [(-> & [= <-] & _)|[_ Hw']]; [done|].
           left. eauto.
    + pose proof (weight_insert ws w (Working index) (Sending index) Hw) as Hwt.
      simpl in Hwt. lia.
  - (* SendDone *)
    destruct (ws !! w) as [[|index|index]|] eqn:Hw; try done.
    destruct (length dn <? length ws)%nat; [|done].
    intros [= <-]. simpl.
    assert (w < length ws)%nat as Hwlt by (by eapply lookup_lt_Some).
    split.
    + constructor; simpl; try done.
      * intros E. apply (f_equal length) in E. rewrite length_insert in E. simpl in E. lia.
      * intros j Hj. destruct (Hcov j Hj) as [[w' Hw']|[[w' Hw']|[Hd|Hc]]].
        -- left. exists w'. rewrite list_lookup_insert_ne; [done|]. congruence.
        -- destruct (decide (w' = w)) as [->|Hne].
           ++ right. right. left. set_solver.
           ++ right. left. exists w'. by rewrite list_lookup_insert_ne.
        -- right. right. left. set_solver.
        -- right. right. by right.
      * intros w' j Hw'. apply list_lookup_insert_Some in Hw' as [(-> & [=] & _)|[_ Hw']].
        by apply Hwork in Hw'.
      * intros w' j Hw'. apply list_lookup_insert_Some in Hw' as [(-> & [=] & _)|[_ Hw']].
        by apply Hsend in Hw'.
      * intros j Hj. apply elem_of_app in Hj as [Hj|Hj]; [by apply Hdone|].
        apply list_elem_of_singleton in Hj as ->. by apply Hsend in Hw.
      * intros j Hj. apply Hsto. destruct Hj as [[w' Hw']|[Hj|Hj]].
        -- apply list_lookup_insert_Some in Hw' as [(-> & [=] & _)|[_ Hw']]. left. eauto.
        -- apply elem_of_app in Hj as [Hj|Hj]; [right; by left|].
           apply list_elem_of_singleton in Hj as ->. left. eauto.
        -- right. by right.
    + pose proof (weight_insert ws w (Sending index) Idle Hw) as Hwt. simpl in Hwt.
      rewrite length_app. simpl. lia.
  - (* Collect *)
    destruct ret; [done|]. destruct dn as [|index dn']; [done|].
    assert (index < len)%nat as Hidx.
    { assert (index < i)%nat by (apply Hdone; by left). lia. }
    unfold store.
    replace (index <? length chk)%nat with true by (symmetry; apply Nat.ltb_lt; lia).
    cbv beta iota.
    destruct (Hrun eq_refl) as (Ho & Hfalse & Heo).
    destruct (emit_spec (<[index := true]> chk) errs (S len) o eo) as (o' & eo' & ret' & -> & Hbelow & Hgo & Hstop);
      try done; try lia.
    { by rewrite length_insert. }
    { intros j Hj. apply Hsto. apply list_lookup_insert_Some in Hj as [(<- & _ & _)|[_ Hj]].
      - right. left. by left.
      - right. by right. }
    { intros j Hj. destruct (decide (j = index)) as [->|Hne].
      - rewrite list_lookup_insert_eq; [done|lia].
      - rewrite list_lookup_insert_ne by done. by apply Hout. }
    intros [= <-]. simpl.
    split.
    + constructor; simpl; try done.
      * by rewrite length_insert.
      * intros j Hj. destruct (Hcov j Hj) as [Hw'|[Hw'|[Hd|Hc]]].
        -- by left.
        -- right. by left.
        -- apply elem_of_cons in Hd as [->|Hd].
           ++ right. right. right. rewrite list_lookup_insert_eq; [done|lia].
           ++ right. right. by left.
        -- right. right. right. destruct (decide (j = index)) as [->|Hne].
           ++ rewrite list_lookup_insert_eq; [done|lia].
           ++ by rewrite list_lookup_insert_ne.
      * intros j Hj. apply Hdone. by right.
      * intros j Hj. apply Hsto. destruct Hj as [Hj|[Hj|Hj]].
        -- by left.
        -- right. left. by right.
        -- apply list_lookup_insert_Some in Hj as [(<- & _ & _)|[_ Hj]].
           ++ right. left. by left.
           ++ right. by right.
    + lia.
Qed.

Lemma consistent_progress (s : pool) :
  consistent len res s ->
  returned s = false ->
  exists ev, ev <> Abort /\ is_Some (step verify len ev s).
Proof.
  intros [Hpan Hws Herr Hchk Hin Hnil Hcov Hwork Hsend Hdone Hsto Hout Hrun Hret] Hgo.
  destruct s as [ws inil dn errs i o chk eo ret pan]. simpl in *. subst pan ret.
  destruct (Hrun eq_refl) as (Ho & Hfalse & Heo).
  destruct dn as [|index dn'].
  - destruct (decide (Forall (fun w => w = Idle) ws)) as [Hidle|Hbusy].
    + destruct inil eqn:Hinil.
      * exfalso. symmetry in Hnil. apply Nat.eqb_eq in Hnil. subst i.
        destruct (Hcov o Ho) as [[w Hw]|[[w Hw]|[Hd|Hc]]].
        -- rewrite Forall_lookup in Hidle. by specialize (Hidle w _ Hw).
        -- rewrite Forall_lookup in Hidle. by specialize (Hidle w _ Hw).
        -- by apply elem_of_nil in Hd.
        -- congruence.
      * exists (Dispatch 0). split; [done|]. unfold step. simpl.
        destruct ws as [|w0 ws']; [done|].
        apply Forall_cons in Hidle as [Hw0 _]. subst w0. simpl. by eexists.
    + apply not_Forall_Exists in Hbusy; [|apply _].
      apply Exists_exists in Hbusy as (x & Hx & Hne).
      apply list_elem_of_lookup in Hx as [w Hw].
      destruct x as [|index|index]; [exfalso; by apply Hne| |].
      * exists (Compute w). split; [done|]. unfold step. simpl. rewrite Hw.
        destruct (verify index); [destruct (store errs index o0)|]; by eexists.
      * exists (SendDone w). split; [done|]. unfold step. simpl. rewrite Hw.
        destruct ws; [done|]. simpl. by eexists.
  - exists Collect. split; [done|]. unfold step. simpl.
    destruct (store chk index true); [|by eexists].
    destruct (emit (S len) len l errs o eo) as [[[? ?] ?]|]; by eexists.
Qed.

Lemma consistent_run (sched : list event) :
  forall s s' : pool,
    consistent len res s ->
    Abort ∉ sched ->
    run verify len sched s = Some s' ->
    consistent len res s' /\ (length sched + workLeft len s' <= workLeft len s)%nat.
Proof.
  induction sched as [|ev sched IH]; intros s s' Hcons Habort Hrun.
  - simpl in Hrun. inversion Hrun; subst. split; [done|]. simpl. lia.
  - cbn [run] in Hrun. destruct (step verify len ev s) as [s1|] eqn:Hstep; [|done].
    destruct (consistent_step ev s s1 Hcons) as [Hcons1 Hless]; [set_solver|done|].
    destruct (IH s1 s' Hcons1) as [Hcons' Hle]; [set_solver|done|].
    split; [done|]. simpl. lia.
Qed.

End PoolProofs.

Lemma idle_pool_weight (n : nat) :
  foldr (fun w acc => weight w + acc)%nat 0%nat (replicate n Idle) = 0%nat.
Proof. induction n as [|n IH]; [done|]. simpl. by rewrite IH. Qed.

Lemma constant_results {A : Type} (c : A) (n : nat) :
  forall start : nat, (fun _ : nat => c) <$> seq start n = replicate n c.
Proof. induction n as [|n IH]; intros start; [done|]. simpl. by rewrite IH. Qed.

(** On a batch whose seal flags are as many as its headers no index is out
    of range. *)
Lemma verifyHeaderWorker_in_range (E : Z) (ext : Externals) (ethash : Ethash)
    (chain : ChainReader) (headers : list Header) (seals : list bool) (index : nat)
    (unixNow : Z) :
  length seals = length headers ->
  (index < length headers)%nat ->
  is_Some (verifyHeaderWorker E ext ethash chain headers seals index unixNow).
Proof.
  intros Hlen Hindex. unfold verifyHeaderWorker.
  destruct (lookup_lt_is_Some_2 headers index Hindex) as [header ->].
  destruct (lookup_lt_is_Some_2 seals index) as [seal Hseal]; [lia|].
  rewrite Hseal. simpl.
  destruct (Nat.eqb_spec index 0) as [->|Hne].
  - destruct (lookup_lt_is_Some_2 headers 0 Hindex) as [first ->]. simpl.
    destruct (GetHeader chain _ _); by eexists.
  - destruct (lookup_lt_is_Some_2 headers (index - 1)) as [previous ->]; [lia|]. simpl.
    destruct (decide _); by eexists.
Qed.

Lemma VerifyHeaders_consistent (ethash : Ethash) (gomaxprocs : nat) (headers : list Header)
    (res : nat -> option error) :
  PowMode ethash <> ModeFullFake ->
  headers <> [] ->
  (0 < gomaxprocs)%nat ->
  consistent (length headers) res (VerifyHeaders ethash gomaxprocs headers)
  /\ workLeft (length headers) (VerifyHeaders ethash gomaxprocs headers)
     = (4 * length headers)%nat.
Proof.
  intros Hmode Hne Hprocs. unfold VerifyHeaders.
  rewrite bool_decide_eq_false_2 by done.
  assert (0 < length headers)%nat as Hlen by (destruct headers; [done|simpl; lia]).
  replace (length headers =? 0)%nat with false by (symmetry; apply Nat.eqb_neq; lia).
  cbn [orb]. cbv zeta. split.
  - constructor; simpl; try done; try (intros; lia).
    + intros E. apply (f_equal length) in E. rewrite length_replicate in E. simpl in E.
      destruct (length headers <? gomaxprocs)%nat; lia.
    + by rewrite length_replicate.
    + by rewrite length_replicate.
    + destruct (length headers); [lia|done].
    + intros w i Hw. apply lookup_replicate in Hw as [? _]. done.
    + intros w i Hw. apply lookup_replicate in Hw as [? _]. done.
    + intros i Hi. by apply elem_of_nil in Hi.
    + intros i [[w Hw]|[Hi|Hi]].
      * apply lookup_replicate in Hw as [? _]. done.
      * by apply elem_of_nil in Hi.
      * apply lookup_replicate in Hi as [? _]. done.
    + intros _. split; [done|]. split; [|done]. by apply lookup_replicate.
  - unfold workLeft. simpl. rewrite idle_pool_weight. lia.
Qed.

Lemma emitted_results (verify : nat -> option (option error)) (res : nat -> option error)
    (len k : nat) :
  (forall i, (i < len)%nat -> verify i = Some (res i)) ->
  (k <= len)%nat ->
  Some <$> (res <$> seq 0 k) = verify <$> seq 0 k.
Proof.
  intros Hres Hk. rewrite <- list_fmap_compose.
  apply list_fmap_ext. intros i x Hx. simpl.
  apply lookup_seq in Hx as [-> Hi]. simpl. symmetry. apply Hres. lia.
Qed.

(** C4: for a non-empty batch with as many seal flags as headers, whatever
    the scheduler picks among the goroutines of [VerifyHeaders] as long as
    the caller does not abort: what has been sent on the results channel is
    at every moment the results of the headers 0, 1, 2, ... in this order,
    one for each, never more than there are headers; as long as the
    coordinator has not returned some goroutine can move, and no run is
    longer than four steps per header; once it has returned there is exactly
    one result per header.  In the full-fake mode the results are there from
    the start, a nil per header. *)
Theorem VerifyHeaders_in_order (E : Z) (ext : Externals) (ethash : Ethash) (chain : ChainReader)
    (headers : list Header) (seals : list bool) (unixNow : Z) (gomaxprocs : nat)
    (sched : list event) (s : pool) :
  headers <> [] ->
  length seals = length headers ->
  (0 < gomaxprocs)%nat ->
  Abort ∉ sched ->
  run (fun index => verifyHeaderWorker E ext ethash chain headers seals index unixNow)
      (length headers) sched (VerifyHeaders ethash gomaxprocs headers) = Some s ->
  panicked s = false
  /\ (length sched <= 4 * length headers)%nat
  /\ (length (errorsOut s) <= length headers)%nat
  /\ Some <$> errorsOut s
     = (fun index =>
          if bool_decide (PowMode ethash = ModeFullFake) then Some None
          else verifyHeaderWorker E ext ethash chain headers seals index unixNow)
       <$> seq 0 (length (errorsOut s))
  /\ (returned s = true -> length (errorsOut s) = length headers)
  /\ (returned s = false ->
      exists ev,
        ev <> Abort
        /\ is_Some (step (fun index =>
                            verifyHeaderWorker E ext ethash chain headers seals index unixNow)
                         (length headers) ev s)).
Proof.
  intros Hne Hseals Hprocs Habort Hrun.
  destruct (decide (PowMode ethash = ModeFullFake)) as [Hfake|Hreal].
  - rewrite bool_decide_eq_true_2 by done.
    unfold VerifyHeaders in Hrun. rewrite bool_decide_eq_true_2 in Hrun by done.
    cbn [orb] in Hrun.
    destruct sched as [|ev sched].
    + simpl in Hrun. inversion Hrun; subst s. simpl.
      rewrite length_replicate, constant_results, fmap_replicate.
      repeat split; try done; lia.
    + cbn [run] in Hrun. destruct ev; simpl in Hrun; done.
  - rewrite bool_decide_eq_false_2 by done.
    set (verify := fun index =>
           verifyHeaderWorker E ext ethash chain headers seals index unixNow) in *.
    set (res := fun index => default None (verify index)).
    assert (forall i, (i < length headers)%nat -> verify i = Some (res i)) as Hres.
    { intros i Hi. unfold res, verify.
      destruct (verifyHeaderWorker_in_range E ext ethash chain headers seals i unixNow
                  Hseals Hi) as [r ->]. done. }
    destruct (VerifyHeaders_consistent ethash gomaxprocs headers res Hreal Hne Hprocs)
      as [Hinit Hwork].
    destruct (consistent_run verify (length headers) res Hres sched _ s Hinit Habort Hrun)
      as [Hcons Hle].
    rewrite Hwork in Hle.
    split; [by destruct Hcons|]. split; [lia|].
    destruct (returned s) eqn:Hret.
    + pose proof (cons_returned _ _ _ Hcons Hret) as Hout.
      rewrite Hout, length_fmap, length_seq.
      split; [lia|]. split; [by apply (emitted_results verify res (length headers))|].
      split; [done|]. done.
    + destruct (cons_running _ _ _ Hcons Hret) as (Hlt & _ & Hout).
      rewrite Hout, length_fmap, length_seq.
      split; [lia|]. split; [apply (emitted_results verify res (length headers)); [done|lia]|].
      split; [done|]. intros _.
      by apply (consistent_progress verify (length headers) res).
Qed.

Lemma outOfOrder_no_abort : Abort ∉ outOfOrder.
Proof.
  intros H. unfold outOfOrder in H.
  repeat (apply elem_of_cons in H as [H|H]; [discriminate|]).
  by apply elem_of_nil in H.
Defined.

Lemma VerifyHeaders_in_order_sample :
  panicked afterOutOfOrder = false
  /\ (length outOfOrder <= 4 * length sampleBatch)%nat
  /\ (length (errorsOut afterOutOfOrder) <= length sampleBatch)%nat
  /\ Some <$> errorsOut afterOutOfOrder
     = (fun index =>
          if bool_decide (PowMode normalEngine = ModeFullFake) then Some None
          else verifyHeaderWorker 1000000000 sampleExternals normalEngine twoBlocks
                 sampleBatch [true; true] index 2000)
       <$> seq 0 (length (errorsOut afterOutOfOrder))
  /\ (returned afterOutOfOrder = true -> length (errorsOut afterOutOfOrder) = length sampleBatch)
  /\ (returned afterOutOfOrder = false ->
      exists ev,
        ev <> Abort
        /\ is_Some (step (fun index =>
                            verifyHeaderWorker 1000000000 sampleExternals normalEngine twoBlocks
                              sampleBatch [true; true] index 2000)
                         (length sampleBatch) ev afterOutOfOrder)).
Proof.
  apply (VerifyHeaders_in_order 1000000000 sampleExternals normalEngine twoBlocks
           sampleBatch [true; true] 2000 2 outOfOrder afterOutOfOrder).
  - discriminate.
  - reflexivity.
  - lia.
  - exact outOfOrder_no_abort.
  - vm_compute. reflexivity.
Defined.

End Batch.

(* ===================================================================== *)
(** * Further properties *)
(* ===================================================================== *)

(** ** The 256-bit calculators against the unbounded ones *)

Lemma uint64_small (z : Z) : 0 <= z < 2 ^ 64 -> wrap64 z = z.
Proof. intros H. unfold wrap64, uint64_modulus. by apply Z.mod_small. Qed.

Lemma Uint64_small (z : Z) : 0 <= z < 2 ^ 64 -> Uint64 z = z.
Proof. intros H. unfold Uint64, uint64_modulus. rewrite Z.abs_eq by lia. by apply Z.mod_small. Qed.

Lemma u256_small (z : Z) : 0 <= z < 2 ^ 256 -> z mod uint256.modulus = z.
Proof. intros H. unfold uint256.modulus. by apply Z.mod_small. Qed.

Lemma Rsh_11 (z : Z) : uint256.Rsh z difficultyBoundDivisor = z / DifficultyBoundDivisor.
Proof. unfold uint256.Rsh. rewrite Z.shiftr_div_pow2 by (unfold difficultyBoundDivisor; lia). done. Qed.

Lemma Lsh_one (k : Z) : 0 <= k -> 2 ^ k < 2 ^ 256 -> uint256.Lsh 1 k = 2 ^ k.
Proof.
  intros Hk Hlt. unfold uint256.Lsh. rewrite Z.shiftl_mul_pow2 by done.
  rewrite Z.mul_1_l. apply u256_small. split; [apply Z.pow_nonneg; lia|done].
Qed.

Lemma div_2048_bounds (d : Z) : 0 <= d -> 0 <= d / DifficultyBoundDivisor /\ 2048 * (d / DifficultyBoundDivisor) <= d.
Proof.
  intros Hd. unfold DifficultyBoundDivisor. split.
  - apply Z.div_pos; lia.
  - apply Z.mul_div_le. lia.
Qed.

(** X1: Where the parent's difficulty and the result fit in 256 bits, the
    candidate time is not before the parent's and the numbers are [uint64]s,
    the 256-bit Frontier calculator returns what the unbounded one returns. *)
Theorem CalcDifficultyFrontierU256_agrees (time : Z) (parent : Header) :
  0 <= Time parent <= time ->
  time < 2 ^ 64 ->
  0 <= Number parent < 2 ^ 64 - 1 ->
  0 <= Difficulty parent < 2 ^ 256 ->
  calcDifficultyFrontier time parent < 2 ^ 256 ->
  CalcDifficultyFrontierU256 time parent = calcDifficultyFrontier time parent.
Proof.
  intros Ht Ht64 Hn Hd Hfit.
  unfold CalcDifficultyFrontierU256. cbv zeta.
  unfold uint256.FromBig, uint256.LtUint64. rewrite (u256_small (Difficulty parent)) by done.
  rewrite Rsh_11. rewrite (uint64_small (time - Time parent)) by lia.
  rewrite (Uint64_small (Number parent)) by lia.
  rewrite (uint64_small (Number parent + 1)) by lia.
  revert Hfit. unfold calcDifficultyFrontier, BigMax. cbv zeta.
  change frontierDurationLimit with DurationLimit. change expDiffPeriodUint with expDiffPeriod.
  change minimumDifficulty with MinimumDifficulty.
  destruct (div_2048_bounds (Difficulty parent)) as [Ha1 Ha2]; [lia|].
  set (adj := Difficulty parent / DifficultyBoundDivisor) in *.
  set (pc := (Number parent + 1) / expDiffPeriod).
  assert (0 <= pc) as Hpc by (apply Z.div_pos; unfold expDiffPeriod; lia).
  assert (pc < 2 ^ 64) as Hpc64.
  { apply Z.div_lt_upper_bound; unfold expDiffPeriod; lia. }
  pose proof (pow2_nonneg (pc - 2)) as Hpow.
  unfold uint256.Add, uint256.Sub.
  assert (MinimumDifficulty = 131072) as Hmin by reflexivity.
  destruct (time - Time parent <? DurationLimit).
  - destruct (Z.ltb_spec 1 pc) as [Hbomb|Hnobomb].
    + rewrite uint64_small by lia.
      destruct ((Difficulty parent + adj <? MinimumDifficulty)) eqn:Hfloor; intros Hfit.
      * destruct (Z.ltb_spec (MinimumDifficulty + 2 ^ (pc - 2)) MinimumDifficulty); [lia|].
        rewrite (u256_small (Difficulty parent + adj)) by (apply Z.ltb_lt in Hfloor; lia).
        rewrite Hfloor. rewrite Lsh_one by lia. apply u256_small. lia.
      * apply Z.ltb_ge in Hfloor.
        destruct (Z.ltb_spec (Difficulty parent + adj + 2 ^ (pc - 2)) MinimumDifficulty); [lia|].
        rewrite (u256_small (Difficulty parent + adj)) by lia.
        replace (Difficulty parent + adj <? MinimumDifficulty) with false
          by (symmetry; apply Z.ltb_ge; lia).
        rewrite Lsh_one by lia. apply u256_small. lia.
    + destruct ((Difficulty parent + adj <? MinimumDifficulty)) eqn:Hfloor; intros Hfit.
      * rewrite (u256_small (Difficulty parent + adj)) by (apply Z.ltb_lt in Hfloor; lia).
        by rewrite Hfloor.
      * apply Z.ltb_ge in Hfloor. rewrite (u256_small (Difficulty parent + adj)) by lia.
        by replace (Difficulty parent + adj <? MinimumDifficulty) with false
          by (symmetry; apply Z.ltb_ge; lia).
  - rewrite (u256_small (Difficulty parent - adj)) by lia.
    destruct (Z.ltb_spec 1 pc) as [Hbomb|Hnobomb].
    + rewrite uint64_small by lia.
      destruct ((Difficulty parent - adj <? MinimumDifficulty)) eqn:Hfloor; intros Hfit.
      * destruct (Z.ltb_spec (MinimumDifficulty + 2 ^ (pc - 2)) MinimumDifficulty); [lia|].
        rewrite Lsh_one by lia. apply u256_small. lia.
      * apply Z.ltb_ge in Hfloor.
        destruct (Z.ltb_spec (Difficulty parent - adj + 2 ^ (pc - 2)) MinimumDifficulty); [lia|].
        rewrite Lsh_one by lia. apply u256_small. lia.
    + by destruct ((Difficulty parent - adj <? MinimumDifficulty)).
Qed.

(** The floor and the bomb, on 256 bits and on unbounded integers. *)
Lemma floor_and_bomb_agree (v pc : Z) :
  0 <= v ->
  0 <= pc < 2 ^ 64 ->
  (if 1 <? pc
   then (if v <? MinimumDifficulty then MinimumDifficulty else v) + 2 ^ (pc - 2)
   else if v <? MinimumDifficulty then MinimumDifficulty else v) < 2 ^ 256 ->
  (if 1 <? pc
   then uint256.Add
          (if uint256.LtUint64 (v mod uint256.modulus) minimumDifficulty
           then minimumDifficulty else v mod uint256.modulus)
          (uint256.Lsh 1 (wrap64 (pc - 2)))
   else if uint256.LtUint64 (v mod uint256.modulus) minimumDifficulty
        then minimumDifficulty else v mod uint256.modulus)
  = if 1 <? pc
    then (if v <? MinimumDifficulty then MinimumDifficulty else v) + 2 ^ (pc - 2)
    else if v <? MinimumDifficulty then MinimumDifficulty else v.
Proof.
  intros Hv Hpc. change minimumDifficulty with MinimumDifficulty.
  unfold uint256.LtUint64, uint256.Add.
  pose proof (pow2_nonneg (pc - 2)) as Hpow.
  assert (MinimumDifficulty = 131072) as Hmin by reflexivity.
  destruct (Z.ltb_spec 1 pc) as [Hbomb|Hnobomb]; intros Hfit.
  - rewrite uint64_small by lia.
    assert (v < 2 ^ 256) as Hv' by (destruct (v <? MinimumDifficulty) eqn:E;
                                     [apply Z.ltb_lt in E|]; lia).
    rewrite (u256_small v) by lia. rewrite Lsh_one by (destruct (v <? MinimumDifficulty); lia).
    apply u256_small. destruct (v <? MinimumDifficulty); lia.
  - assert (v < 2 ^ 256) as Hv' by (destruct (v <? MinimumDifficulty) eqn:E;
                                     [apply Z.ltb_lt in E|]; lia).
    by rewrite (u256_small v) by lia.
Qed.

(** X2: Where the parent's difficulty and the result fit in 256 bits, the
    candidate time is not before the parent's and the numbers are [uint64]s,
    the 256-bit Homestead calculator returns what the unbounded one
    returns. *)
Theorem CalcDifficultyHomesteadU256_agrees (time : Z) (parent : Header) :
  0 <= Time parent <= time ->
  time < 2 ^ 64 ->
  0 <= Number parent < 2 ^ 64 - 1 ->
  0 <= Difficulty parent < 2 ^ 256 ->
  calcDifficultyHomestead time parent < 2 ^ 256 ->
  CalcDifficultyHomesteadU256 time parent = calcDifficultyHomestead time parent.
Proof.
  intros Ht Ht64 Hn Hd Hfit.
  unfold CalcDifficultyHomesteadU256. cbv zeta.
  unfold uint256.FromBig. rewrite (u256_small (Difficulty parent)) by done.
  rewrite Rsh_11. rewrite (uint64_small (time - Time parent)) by lia.
  rewrite (Uint64_small (Number parent)) by lia.
  rewrite (uint64_small (1 + Number parent)) by lia.
  replace (1 + Number parent) with (Number parent + 1) by lia.
  revert Hfit. unfold calcDifficultyHomestead. cbv zeta.
  change expDiffPeriodUint with expDiffPeriod.
  destruct (div_2048_bounds (Difficulty parent)) as [Ha1 Ha2]; [lia|].
  set (adj := Difficulty parent / DifficultyBoundDivisor) in *.
  set (pc := (Number parent + 1) / expDiffPeriod).
  assert (0 <= pc) as Hpc by (apply Z.div_pos; unfold expDiffPeriod; lia).
  assert (pc < 2 ^ 64) as Hpc64.
  { apply Z.div_lt_upper_bound; unfold expDiffPeriod; lia. }
  set (k := (time - Time parent) / 10).
  assert (0 <= k) as Hk by (apply Z.div_pos; lia).
  assert (k < 2 ^ 64) as Hk64 by (apply Z.div_lt_upper_bound; lia).
  unfold bigMinus99.
  destruct (Z.eqb_spec k 0) as [Hk0|Hk0].
  - (* the difficulty goes up *)
    replace (if 1 - k <? -99 then -99 else 1 - k) with 1
      by (destruct (Z.ltb_spec (1 - k) (-99)); lia).
    unfold uint256.Mul. rewrite (u256_small (adj * 1)) by lia.
    unfold uint256.Add at 2.
    replace (adj * 1) with adj by lia. replace (Difficulty parent + adj * 1) with (Difficulty parent + adj) by lia.
    intros Hfit. apply floor_and_bomb_agree; [lia|lia|done].
  - destruct (Z.leb_spec 100 k) as [Hbig|Hsmall].
    + replace (if 1 - k <? -99 then -99 else 1 - k) with (-99)
        by (destruct (Z.ltb_spec (1 - k) (-99)); lia).
      unfold uint256.Mul. rewrite (u256_small (adj * 99)) by lia.
      unfold uint256.Sub.
      replace (Difficulty parent + adj * -99) with (Difficulty parent - adj * 99) by lia.
      intros Hfit. apply floor_and_bomb_agree; [lia|lia|done].
    + replace (if 1 - k <? -99 then -99 else 1 - k) with (1 - k)
        by (destruct (Z.ltb_spec (1 - k) (-99)); lia).
      rewrite (uint64_small (k - 1)) by lia.
      unfold uint256.Mul. rewrite (u256_small (adj * (k - 1))) by nia.
      unfold uint256.Sub.
      replace (Difficulty parent + adj * (1 - k)) with (Difficulty parent - adj * (k - 1)) by lia.
      intros Hfit. apply floor_and_bomb_agree; [nia|lia|done].
Qed.

(** X3: Where the parent's difficulty and the result fit in 256 bits, the
    candidate time is not before the parent's and the numbers are [uint64]s,
    the 256-bit calculator with a delayed bomb returns what the unbounded
    one returns, for every delay that is a positive [uint64]. *)
Theorem MakeDifficultyCalculatorU256_agrees (bombDelay time : Z) (parent : Header) :
  1 <= bombDelay < 2 ^ 64 ->
  0 <= Time parent <= time ->
  time < 2 ^ 64 ->
  0 <= Number parent < 2 ^ 64 ->
  0 <= Difficulty parent < 2 ^ 256 ->
  makeDifficultyCalculator bombDelay time parent < 2 ^ 256 ->
  MakeDifficultyCalculatorU256 bombDelay time parent
  = makeDifficultyCalculator bombDelay time parent.
Proof.
  intros Hb Ht Ht64 Hn Hd Hfit.
  unfold MakeDifficultyCalculatorU256. cbv zeta.
  unfold uint256.FromBig. rewrite (u256_small (Difficulty parent)) by done.
  rewrite Rsh_11. rewrite (uint64_small (time - Time parent)) by lia.
  rewrite (Uint64_small (Number parent)) by lia.
  rewrite (Uint64_small bombDelay) by lia.
  rewrite (uint64_small (bombDelay - 1)) by lia.
  revert Hfit. unfold makeDifficultyCalculator. cbv zeta.
  change expDiffPeriodUint with expDiffPeriod. change minimumDifficulty with MinimumDifficulty.
  destruct (div_2048_bounds (Difficulty parent)) as [Ha1 Ha2]; [lia|].
  set (adj := Difficulty parent / DifficultyBoundDivisor) in *.
  set (k := (time - Time parent) / 9).
  assert (0 <= k) as Hk by (apply Z.div_pos; lia).
  assert (k < 2 ^ 64) as Hk64 by (apply Z.div_lt_upper_bound; lia).
  set (c := if decide (UncleHash parent = EmptyUncleHash) then 1 else 2).
  assert (c = 1 \/ c = 2) as Hc by (unfold c; destruct (decide _); lia).
  replace (if decide (UncleHash parent = EmptyUncleHash) then 1 - k else 2 - k) with (c - k)
    by (unfold c; by destruct (decide _)).
  unfold bigMinus99.
  (* the adjusted difficulty before the floor *)
  assert ((if c <=? k
           then uint256.Sub (Difficulty parent)
                  (uint256.Mul adj (if 99 <? (if c <=? k then wrap64 (k - c) else wrap64 (c - k))
                                    then 99
                                    else if c <=? k then wrap64 (k - c) else wrap64 (c - k)))
           else uint256.Add (Difficulty parent)
                  (uint256.Mul adj (if 99 <? (if c <=? k then wrap64 (k - c) else wrap64 (c - k))
                                    then 99
                                    else if c <=? k then wrap64 (k - c) else wrap64 (c - k))))
          = (Difficulty parent + adj * (if c - k <? -99 then -99 else c - k))
            mod uint256.modulus
          /\ 0 <= Difficulty parent + adj * (if c - k <? -99 then -99 else c - k)) as [-> Hv].
  { unfold uint256.Sub, uint256.Add, uint256.Mul.
    destruct (Z.leb_spec c k) as [Hneg|Hpos].
    - rewrite (uint64_small (k - c)) by lia.
      destruct (Z.ltb_spec 99 (k - c)); destruct (Z.ltb_spec (c - k) (-99)); try lia.
      + rewrite (u256_small (adj * 99)) by lia. split; [f_equal; lia|lia].
      + rewrite (u256_small (adj * (k - c))) by nia. split; [f_equal; lia|nia].
    - rewrite (uint64_small (c - k)) by lia.
      destruct (Z.ltb_spec 99 (c - k)); destruct (Z.ltb_spec (c - k) (-99)); try lia.
      rewrite (u256_small (adj * (c - k))) by nia. split; [done|nia]. }
  set (v := Difficulty parent + adj * (if c - k <? -99 then -99 else c - k)) in *.
  unfold uint256.LtUint64.
  pose proof (fakeBlockNumber_clamped bombDelay parent) as Hfake.
  assert (MinimumDifficulty = 131072) as Hmin by reflexivity.
  assert (expDiffPeriod = 100000) as Hperiod by reflexivity.
  destruct (Z.leb_spec (bombDelay - 1) (Number parent)) as [Hafter|Hbefore].
  - rewrite (uint64_small (Number parent - (bombDelay - 1))) by lia.
    set (fbn := Number parent - (bombDelay - 1)) in *.
    set (pc := fbn / expDiffPeriod).
    assert (0 <= pc) as Hpc by (apply Z.div_pos; lia).
    assert (pc < 2 ^ 64) as Hpc64 by (apply Z.div_lt_upper_bound; lia).
    pose proof (pow2_nonneg (pc - 2)) as Hpow.
    assert ((2 * expDiffPeriod <=? fbn) = (1 <? pc)) as ->.
    { destruct (Z.leb_spec (2 * expDiffPeriod) fbn) as [H2|H2];
        destruct (Z.ltb_spec 1 pc) as [H1|H1]; try done; exfalso.
      - assert (2 <= pc); [|lia]. apply Z.div_le_lower_bound; lia.
      - assert (pc < 2); [|lia]. apply Z.div_lt_upper_bound; lia. }
    destruct (Z.ltb_spec 1 pc) as [Hbomb|Hnobomb]; intros Hfit.
    + assert (v < 2 ^ 256) as Hv' by (destruct (v <? MinimumDifficulty) eqn:E;
                                       [apply Z.ltb_lt in E|]; lia).
      rewrite (u256_small v) by lia. rewrite (uint64_small (pc - 2)) by lia.
      rewrite Lsh_one by (destruct (v <? MinimumDifficulty); lia).
      unfold uint256.Add. rewrite u256_small by (destruct (v <? MinimumDifficulty); lia).
      lia.
    + assert (v < 2 ^ 256) as Hv' by (destruct (v <? MinimumDifficulty) eqn:E;
                                       [apply Z.ltb_lt in E|]; lia).
      by rewrite (u256_small v) by lia.
  - replace (1 <? 0 / expDiffPeriod) with false by reflexivity. intros Hfit.
    assert (v < 2 ^ 256) as Hv' by (destruct (v <? MinimumDifficulty) eqn:E;
                                     [apply Z.ltb_lt in E|]; lia).
    by rewrite (u256_small v) by lia.
Qed.

(** ** More on the difficulty *)

(** With a positive restart difficulty, every difficulty [CalcDifficulty]
    returns is positive. *)
Lemma CalcDifficulty_positive (E : Z) (config : ChainConfig) (time : Z) (parent : Header) :
  0 < E -> 0 < CalcDifficulty E config time parent.
Proof.
  intros HE.
  destruct (decide (EthPoWForkBlock config = Some (Number parent + 1))) as [Hfork|Hfork].
  { rewrite CalcDifficulty_fork_block by done. lia. }
  destruct (decide (EthPoWForkBlock config = Some (Number parent + 1 - 2048))) as [Hre|Hre].
  { by rewrite CalcDifficulty_restart_block. }
  pose proof (CalcDifficulty_floor E config time parent Hfork Hre) as H.
  unfold MinimumDifficulty in H. lia.
Qed.

(** X4: A step of the bomb-free Byzantium adjustment is bounded: when the
    candidate time is not before the parent's, the new difficulty is at
    most the parent's plus two 2048ths of it and at least the parent's less
    ninety-nine 2048ths, the floor apart. *)
Theorem calcDifficultyEthPoW_bounded_step (time : Z) (parent : Header) :
  Time parent <= time ->
  0 <= Difficulty parent ->
  calcDifficultyEthPoW time parent
  <= Z.max MinimumDifficulty (Difficulty parent + 2 * (Difficulty parent / 2048))
  /\ Z.max MinimumDifficulty (Difficulty parent - 99 * (Difficulty parent / 2048))
     <= calcDifficultyEthPoW time parent.
Proof.
  intros Ht Hd. unfold calcDifficultyEthPoW. cbv zeta.
  change DifficultyBoundDivisor with 2048. unfold bigMinus99.
  assert (0 <= Difficulty parent / 2048) as Hadj by (apply Z.div_pos; lia).
  assert (0 <= (time - Time parent) / 9) as Hk by (apply Z.div_pos; lia).
  set (adj := Difficulty parent / 2048) in *.
  set (k := (time - Time parent) / 9) in *.
  set (x := if decide (UncleHash parent = EmptyUncleHash) then 1 - k else 2 - k).
  assert (x <= 2) as Hx by (unfold x; destruct (decide _); lia).
  set (x' := if x <? -99 then -99 else x).
  assert (-99 <= x' <= 2) as Hx'.
  { unfold x'. destruct (Z.ltb_spec x (-99)); lia. }
  destruct (Z.ltb_spec (Difficulty parent + adj * x') MinimumDifficulty); nia.
Qed.

(** X5: The hybrid difficulty is at least 131072 whatever the factors, and for
    factors that are not negative it is at least the PoW difficulty. *)
Theorem CalcCustomDifficulty_lower_bounds (E : Z) (config : ChainConfig) (time : Z)
    (parent : Header) (posFactor potFactor trustFactor : Z) :
  minimumDifficulty <= CalcCustomDifficulty E config time parent posFactor potFactor trustFactor
  /\ (0 < E -> 0 <= posFactor -> 0 <= potFactor -> 0 <= trustFactor ->
      CalcDifficulty E config time parent
      <= CalcCustomDifficulty E config time parent posFactor potFactor trustFactor).
Proof.
  unfold CalcCustomDifficulty. cbv zeta. split.
  - destruct (Z.ltb_spec
                (CalcDifficulty E config time parent
                 + CalcDifficulty E config time parent * stakeWeight * posFactor / totalWeight
                 + CalcDifficulty E config time parent * transactionWeight * potFactor / totalWeight
                 + CalcDifficulty E config time parent * trustWeight * trustFactor / totalWeight)
                minimumDifficulty); lia.
  - intros HE Hpos Hpot Htrust.
    pose proof (CalcDifficulty_positive E config time parent HE) as Hbase.
    set (base := CalcDifficulty E config time parent) in *.
    unfold stakeWeight, transactionWeight, trustWeight, totalWeight.
    assert (0 <= base * 50 * posFactor / 200) by (apply Z.div_pos; nia).
    assert (0 <= base * 30 * potFactor / 200) by (apply Z.div_pos; nia).
    assert (0 <= base * 20 * trustFactor / 200) by (apply Z.div_pos; nia).
    destruct (Z.ltb_spec (base + base * 50 * posFactor / 200 + base * 30 * potFactor / 200
                          + base * 20 * trustFactor / 200) minimumDifficulty); lia.
Qed.

(** X6: The hybrid difficulty does not decrease when a factor grows. *)
Theorem CalcCustomDifficulty_monotone (E : Z) (config : ChainConfig) (time : Z)
    (parent : Header) (posFactor potFactor trustFactor posFactor' potFactor' trustFactor' : Z) :
  0 < E ->
  posFactor <= posFactor' ->
  potFactor <= potFactor' ->
  trustFactor <= trustFactor' ->
  CalcCustomDifficulty E config time parent posFactor potFactor trustFactor
  <= CalcCustomDifficulty E config time parent posFactor' potFactor' trustFactor'.
Proof.
  intros HE Hpos Hpot Htrust.
  pose proof (CalcDifficulty_positive E config time parent HE) as Hbase.
  unfold CalcCustomDifficulty. cbv zeta.
  set (base := CalcDifficulty E config time parent) in *.
  unfold stakeWeight, transactionWeight, trustWeight, totalWeight.
  assert (base * 50 * posFactor / 200 <= base * 50 * posFactor' / 200)
    by (apply Z.div_le_mono; nia).
  assert (base * 30 * potFactor / 200 <= base * 30 * potFactor' / 200)
    by (apply Z.div_le_mono; nia).
  assert (base * 20 * trustFactor / 200 <= base * 20 * trustFactor' / 200)
    by (apply Z.div_le_mono; nia).
  destruct (Z.ltb_spec (base + base * 50 * posFactor / 200 + base * 30 * potFactor / 200
                        + base * 20 * trustFactor / 200) minimumDifficulty);
    destruct (Z.ltb_spec (base + base * 50 * posFactor' / 200 + base * 30 * potFactor' / 200
                          + base * 20 * trustFactor' / 200) minimumDifficulty); lia.
Qed.

(** ** Single headers *)

Lemma reject_if_None (cond : bool) (err : error) :
  reject_if cond err = None -> cond = false.
Proof. by destruct cond. Qed.

Lemma and_then_None (r rest : option error) :
  (r ;; rest) = None -> r = None /\ rest = None.
Proof. by destruct r. Qed.

(** X7: What an accepted header satisfies: its extra data are within the limit,
    its time is after its parent's and, unless it is an uncle, not more than
    fifteen seconds ahead of the clock; its difficulty is the one
    [CalcDifficulty] gives; its gas used is within its gas limit, and that
    within the maximum; its number is the parent's plus one; before London it
    carries no base fee; the checks of package [misc] passed, and so did the
    seal if it was asked for. *)
Theorem verifyHeader_accepted (E : Z) (ext : Externals) (ethash : Ethash) (chain : ChainReader)
    (header parent : Header) (uncle seal : bool) (unixNow : Z) :
  verifyHeader E ext ethash chain header parent uncle seal unixNow = None ->
  Z.of_nat (length (Extra header)) <= MaximumExtraDataSize ext
  /\ (uncle = false -> Time header <= wrap64 (unixNow + 15))
  /\ Time parent < Time header
  /\ Difficulty header = CalcDifficulty E (Config chain) (Time header) parent
  /\ GasUsed header <= GasLimit header <= MaxGasLimit ext
  /\ Number header = Number parent + 1
  /\ (IsLondon (Config chain) (Number header) = false ->
      BaseFee header = None /\ VerifyGaslimit ext (GasLimit parent) (GasLimit header) = None)
  /\ (IsLondon (Config chain) (Number header) = true ->
      VerifyEip1559Header ext (Config chain) parent header = None)
  /\ (seal = true -> verifySeal ext ethash header false = None)
  /\ VerifyDAOHeaderExtraData ext (Config chain) header = None
  /\ VerifyForkHashes ext (Config chain) header uncle = None.
Proof.
  unfold verifyHeader. intros H.
  apply and_then_None in H as [H1 H]. apply reject_if_None in H1.
  apply and_then_None in H as [H2 H]. apply reject_if_None in H2.
  apply and_then_None in H as [H3 H]. apply reject_if_None in H3.
  cbv zeta in H.
  apply and_then_None in H as [H4 H]. apply reject_if_None in H4.
  apply and_then_None in H as [H5 H]. apply reject_if_None in H5.
  apply and_then_None in H as [H6 H]. apply reject_if_None in H6.
  apply and_then_None in H as [H7 H].
  apply and_then_None in H as [H8 H]. apply reject_if_None in H8.
  apply and_then_None in H as [H9 H].
  apply and_then_None in H as [H10 H].
  apply and_then_None in H as [H11 _].
  apply Z.ltb_ge in H1. apply Z.leb_gt in H3. apply negb_false_iff, Z.eqb_eq in H4.
  apply Z.ltb_ge in H5. apply Z.ltb_ge in H6. apply negb_false_iff, Z.eqb_eq in H8.
  split; [lia|]. split.
  { intros ->. simpl in H2. by apply Z.ltb_ge in H2. }
  split; [lia|]. split; [done|]. split; [lia|]. split; [lia|]. split.
  { intros HL. rewrite HL in H7. simpl in H7. by destruct (BaseFee header). }
  split.
  { intros HL. by rewrite HL in H7. }
  split.
  { by intros ->. }
  done.
Qed.

(** [verifySeal] raises the invalid-difficulty error for no header of
    positive difficulty, whatever the engine and the engines it shares. *)
Lemma verifySeal_positive_difficulty (ext : Externals) (ethash : Ethash) (header : Header)
    (fulldag : bool) :
  0 < Difficulty header ->
  verifySeal ext ethash header fulldag <> Some errInvalidDifficulty.
Proof.
  revert ethash. fix verifySeal_positive_difficulty 1. intros ethash.
  intros Hd. destruct ethash as [mode fail gen sh]. cbn [verifySeal].
  destruct (isFake mode).
  - by destruct (fail =? Uint64 (Number header)).
  - destruct sh as [sharedEngine|].
    + by apply verifySeal_positive_difficulty.
    + replace (Difficulty header <=? 0) with false by (symmetry; apply Z.leb_gt; lia).
      destruct (match (if fulldag then if gen (Uint64 (Number header))
                          then Some (hashimotoFull ext (Uint64 (Number header))
                                       (SealHash ext header) (Nonce header))
                          else None else None) with
                | Some dr => dr
                | None => _
                end) as [digest result].
      destruct (negb (bytes_Equal (MixDigest header) digest)); [done|].
      by destruct (two256 / Difficulty header <? SetBytes result).
Qed.

(** X8: [Prepare] fails exactly for a header whose parent the chain does not
    know, and then leaves the header alone; otherwise it changes the
    difficulty and nothing else, the new difficulty is the one
    [verifyHeader] expects against that parent, and with a positive restart
    difficulty [verifySeal] does not reject the prepared header for its
    difficulty. *)
Theorem Prepare_then_verify (E : Z) (ext : Externals) (ethash : Ethash) (chain : ChainReader)
    (header : Header) :
  0 < E ->
  match GetHeader chain (ParentHash header) (wrap64 (Uint64 (Number header) - 1)) with
  | None => Prepare E chain header = (header, Some ErrUnknownAncestor)
  | Some parent =>
    exists prepared,
      Prepare E chain header = (prepared, None)
      /\ prepared = setDifficulty header (Difficulty prepared)
      /\ Difficulty prepared = CalcDifficulty E (Config chain) (Time prepared) parent
      /\ forall fulldag, verifySeal ext ethash prepared fulldag <> Some errInvalidDifficulty
  end.
Proof.
  intros HE. unfold Prepare.
  destruct (GetHeader chain (ParentHash header) (wrap64 (Uint64 (Number header) - 1)))
    as [parent|]; [|done].
  eexists. split; [reflexivity|]. split; [done|]. split; [done|].
  intros fulldag. apply verifySeal_positive_difficulty. simpl.
  by apply CalcDifficulty_positive.
Qed.

(** X9: The first header of a batch is verified as [VerifyHeader] verifies it
    alone, provided the chain does not hold it yet; every later header is
    verified against its predecessor in the batch, or rejected as of unknown
    ancestry when it does not name that predecessor as its parent. *)
Theorem verifyHeaderWorker_VerifyHeader (E : Z) (ext : Externals) (ethash : Ethash)
    (chain : ChainReader) (first : Header) (headers : list Header) (seal : bool)
    (seals : list bool) (unixNow : Z) :
  PowMode ethash <> ModeFullFake ->
  GetHeader chain (HeaderHash ext first) (Uint64 (Number first)) = None ->
  verifyHeaderWorker E ext ethash chain (first :: headers) (seal :: seals) 0 unixNow
  = Some (VerifyHeader E ext ethash chain first seal unixNow)
  /\ forall i previous header flag,
      (first :: headers) !! i = Some previous ->
      (first :: headers) !! S i = Some header ->
      (seal :: seals) !! S i = Some flag ->
      verifyHeaderWorker E ext ethash chain (first :: headers) (seal :: seals) (S i) unixNow
      = Some (if decide (HeaderHash ext previous = ParentHash header)
              then verifyHeader E ext ethash chain header previous false flag unixNow
              else Some ErrUnknownAncestor).
Proof.
  intros Hmode Hnew. split.
  - unfold verifyHeaderWorker, VerifyHeader. simpl.
    rewrite decide_False by done. rewrite Hnew.
    by destruct (GetHeader chain (ParentHash first) _).
  - intros i previous header flag Hp Hh Hf.
    unfold verifyHeaderWorker. rewrite Hh. cbn [mbind option_bind Nat.eqb].
    replace (S i - 1)%nat with i by lia. rewrite Hp. cbn [mbind option_bind].
    destruct (decide (HeaderHash ext previous = ParentHash header)); [|done].
    by rewrite Hf.
Qed.

(** ** More on uncles *)

(** The first loop of [VerifyUncles] keeps at most [i] ancestors, each the
    header the chain holds under that hash. *)
Lemma gatherAncestors_from_chain (ext : Externals) (chain : ChainReader) (i : nat) :
  forall (parent : Hash) (number : Z) (uncles : gset Hash) (ancestors : gmap Hash Header),
    (size (gatherAncestors ext chain i parent number uncles ancestors).2
     <= size ancestors + i)%nat
    /\ forall hash header,
        (gatherAncestors ext chain i parent number uncles ancestors).2 !! hash = Some header ->
        ancestors !! hash = Some header
        \/ exists n, GetHeader chain hash n = Some header.
Proof.
  induction i as [|i IH]; intros parent number uncles ancestors.
  - simpl. split; [lia|]. eauto.
  - cbn [gatherAncestors].
    destruct (GetHeader chain parent number) as [ancestorHeader|] eqn:Hget.
    2:{ simpl. split; [lia|]. eauto. }
    assert (size (<[parent := ancestorHeader]> ancestors) <= S (size ancestors))%nat as Hsize.
    { destruct (ancestors !! parent) eqn:Hl.
      - rewrite map_size_insert_Some by eauto. lia.
      - rewrite map_size_insert_None by done. lia. }
    assert (forall hash header,
               <[parent := ancestorHeader]> ancestors !! hash = Some header ->
               ancestors !! hash = Some header
               \/ exists n, GetHeader chain hash n = Some header) as Hins.
    { intros hash header Hl. destruct (decide (parent = hash)) as [<-|Hne].
      - rewrite lookup_insert_eq in Hl. inversion Hl; subst. eauto.
      - rewrite lookup_insert_ne in Hl by done. eauto. }
    destruct (decide (UncleHash ancestorHeader = EmptyUncleHash)).
    + destruct (IH (ParentHash ancestorHeader) (wrap64 (number - 1)) uncles
                  (<[parent := ancestorHeader]> ancestors)) as [Hs Hl].
      split; [lia|]. intros hash header Hlook.
      destruct (Hl hash header Hlook) as [Hold|Hchain]; eauto.
    + destruct (GetBlock chain parent number) as [ancestor|].
      * destruct (IH (ParentHash ancestorHeader) (wrap64 (number - 1))
                    (foldl (fun set uncle => set ∪ {[HeaderHash ext uncle]}) uncles
                       (Uncles ancestor))
                    (<[parent := ancestorHeader]> ancestors)) as [Hs Hl].
        split; [lia|]. intros hash header Hlook.
        destruct (Hl hash header Hlook) as [Hold|Hchain]; eauto.
      * simpl. split; [lia|]. done.
Qed.

(** X10: [VerifyUncles] gathers no more than seven ancestors, each of them the
    header the chain holds under that hash. *)
Theorem VerifyUncles_ancestor_window (ext : Externals) (chain : ChainReader)
    (parent : Hash) (number : Z) :
  (size (gatherAncestors ext chain 7 parent number ∅ ∅).2 <= 7)%nat
  /\ forall hash header,
      (gatherAncestors ext chain 7 parent number ∅ ∅).2 !! hash = Some header ->
      exists n, GetHeader chain hash n = Some header.
Proof.
  destruct (gatherAncestors_from_chain ext chain 7 parent number ∅ ∅) as [Hsize Hfrom].
  split.
  - by rewrite map_size_empty in Hsize.
  - intros hash header Hl. destruct (Hfrom hash header Hl) as [Hempty|Hn]; [|done].
    by rewrite lookup_empty in Hempty.
Qed.

(** What the second loop has checked when it accepts. *)
Lemma checkUncles_accepted (E : Z) (ext : Externals) (ethash : Ethash) (chain : ChainReader)
    (block : Block) (unixNow : Z) (ancestors : gmap Hash Header) (todo : list Header) :
  forall uncles : gset Hash,
    checkUncles E ext ethash chain block unixNow todo uncles ancestors = None ->
    NoDup (HeaderHash ext <$> todo)
    /\ forall uncle, uncle ∈ todo ->
        (HeaderHash ext uncle ∉ uncles)
        /\ ancestors !! HeaderHash ext uncle = None
        /\ ParentHash uncle <> ParentHash (BlockHeader block)
        /\ exists uncleParent,
            ancestors !! ParentHash uncle = Some uncleParent
            /\ verifyHeader E ext ethash chain uncle uncleParent true true unixNow = None.
Proof.
  induction todo as [|first todo IH]; intros uncles Hok.
  - split; [constructor|]. intros uncle Hin. by apply elem_of_nil in Hin.
  - cbn [checkUncles] in Hok.
    destruct (decide (HeaderHash ext first ∈ uncles)) as [|Hnew]; [done|].
    destruct (ancestors !! HeaderHash ext first) eqn:Hanc; [done|].
    destruct (ancestors !! ParentHash first) as [uncleParent|] eqn:Hpar; [|done].
    destruct (decide (ParentHash first = ParentHash (BlockHeader block))) as [|Hsib]; [done|].
    destruct (verifyHeader E ext ethash chain first uncleParent true true unixNow) eqn:Hver;
      [done|].
    cbn [and_then] in Hok. destruct (IH _ Hok) as [Hnodup Hrest].
    split.
    + cbn [fmap list_fmap]. constructor; [|done].
      intros Hin. apply list_elem_of_fmap in Hin as (other & Heq & Hother).
      destruct (Hrest other Hother) as [Hnot _]. apply Hnot. rewrite <- Heq. set_solver.
    + intros uncle Hin. apply elem_of_cons in Hin as [->|Hin].
      * repeat split; try done. eauto.
      * destruct (Hrest uncle Hin) as (Hnot & Ha & Hs & Hp).
        repeat split; try done. set_solver.
Qed.

(** X11: When [VerifyUncles] accepts a block outside the full-fake mode, the
    block has at most two uncles, their hashes differ from one another and
    from the block's, no uncle is a child of the block's own parent, and each
    has passed [verifyHeader] as an uncle, seal included, against a parent
    that is the block itself or a header the chain holds under the uncle's
    parent hash. *)
Theorem VerifyUncles_accepted (E : Z) (ext : Externals) (ethash : Ethash) (chain : ChainReader)
    (block : Block) (unixNow : Z) :
  PowMode ethash <> ModeFullFake ->
  VerifyUncles E ext ethash chain block unixNow = None ->
  (length (Uncles block) <= 2)%nat
  /\ NoDup (HeaderHash ext <$> Uncles block)
  /\ forall uncle, uncle ∈ Uncles block ->
      HeaderHash ext uncle <> HeaderHash ext (BlockHeader block)
      /\ ParentHash uncle <> ParentHash (BlockHeader block)
      /\ exists uncleParent,
          verifyHeader E ext ethash chain uncle uncleParent true true unixNow = None
          /\ (uncleParent = BlockHeader block
              \/ exists n, GetHeader chain (ParentHash uncle) n = Some uncleParent).
Proof.
  intros Hmode. unfold VerifyUncles. rewrite decide_False by done.
  destruct (Nat.ltb_spec maxUncles (length (Uncles block))) as [|Hlen]; [done|].
  destruct (Nat.eqb_spec (length (Uncles block)) 0) as [Hzero|_].
  { intros _. destruct (Uncles block); [|done].
    split; [simpl; lia|]. split; [constructor|].
    intros uncle Hin. by apply elem_of_nil in Hin. }
  pose proof (gatherAncestors_from_chain ext chain 7 (ParentHash (BlockHeader block))
                (wrap64 (Uint64 (Number (BlockHeader block)) - 1)) ∅ ∅) as [_ Hchain].
  destruct (gatherAncestors ext chain 7 _ _ ∅ ∅) as [uncles ancestors].
  intros Hok. apply checkUncles_accepted in Hok as [Hnodup Hall].
  split; [done|]. split; [done|].
  intros uncle Hin. destruct (Hall uncle Hin) as (Hnot & _ & Hsib & uncleParent & Hpar & Hver).
  split; [set_solver|]. split; [done|].
  exists uncleParent. split; [done|].
  destruct (decide (HeaderHash ext (BlockHeader block) = ParentHash uncle)) as [Heq|Hne].
  - left. rewrite <- Heq, lookup_insert_eq in Hpar. by inversion Hpar.
  - right. rewrite lookup_insert_ne in Hpar by done.
    destruct (Hchain _ _ Hpar) as [Hempty|Hn]; [|done].
    by rewrite lookup_empty in Hempty.
Qed.




(** ** More on rewards *)

(** X13: An address that is neither the block's beneficiary nor an uncle's keeps
    its balance. *)
Theorem accumulateRewards_frame (config : ChainConfig) (state : gmap Address Z)
    (header : Header) (uncles : list Header) (addr : Address) :
  Coinbase header <> addr ->
  (forall uncle, uncle ∈ uncles -> Coinbase uncle <> addr) ->
  GetBalance (accumulateRewards config state header uncles) addr = GetBalance state addr.
Proof.
  intros Hminer Huncles. unfold accumulateRewards. cbv zeta.
  destruct (rewardUncle_loop 1000000000000000000 1000000000000000000 header uncles
              state 1000000000000000000) as [_ Hs].
  destruct (foldl _ _ uncles) as [state' reward'] eqn:Eq. simpl in Hs.
  unfold distributePoSPoTRewards, getPoSAndPoTParticipants. cbn [foldl].
  rewrite GetBalance_AddBalance, Hs, decide_False by done.
  assert (foldr (fun uncle acc =>
                   (if decide (Coinbase uncle = addr)
                    then (Number uncle + 8 - Number header) * 1000000000000000000 / 8
                    else 0) + acc) 0 uncles = 0) as Hzero.
  { clear Eq Hs. induction uncles as [|uncle uncles IH]; [done|].
    cbn [foldr]. rewrite decide_False by (apply Huncles; by left).
    rewrite IH; [done|]. intros u Hu. apply Huncles. by right. }
  rewrite Hzero. lia.
Qed.

(** X14: [accumulateRewards] does not look at how old an uncle is.  For uncles
    at most eight blocks older than the block no balance goes down; the
    beneficiary of a single uncle more than eight blocks older, who is not
    the block's own, ends with less than before. *)
Theorem accumulateRewards_uncle_depth (config : ChainConfig) (state : gmap Address Z)
    (header : Header) :
  (forall uncles addr,
      (forall uncle, uncle ∈ uncles -> Number header - 8 <= Number uncle) ->
      GetBalance state addr <= GetBalance (accumulateRewards config state header uncles) addr)
  /\ (forall uncle,
         Number uncle < Number header - 8 ->
         Coinbase uncle <> Coinbase header ->
         GetBalance (accumulateRewards config state header [uncle]) (Coinbase uncle)
         < GetBalance state (Coinbase uncle)).
Proof.
  split.
  - intros uncles addr Hdepth. unfold accumulateRewards. cbv zeta.
    destruct (rewardUncle_loop 1000000000000000000 1000000000000000000 header uncles
                state 1000000000000000000) as [Hr Hs].
    destruct (foldl _ _ uncles) as [state' reward'] eqn:Eq. simpl in Hr, Hs.
    unfold distributePoSPoTRewards, getPoSAndPoTParticipants. cbn [foldl].
    rewrite GetBalance_AddBalance, Hs, Hr.
    assert (0 <= foldr (fun uncle acc =>
                          (if decide (Coinbase uncle = addr)
                           then (Number uncle + 8 - Number header) * 1000000000000000000 / 8
                           else 0) + acc) 0 uncles) as Hsum.
    { clear Eq Hs Hr. induction uncles as [|uncle uncles IH]; [done|].
      cbn [foldr].
      assert (0 <= (Number uncle + 8 - Number header) * 1000000000000000000 / 8).
      { apply Z.div_pos; [|lia]. assert (Number header - 8 <= Number uncle)
          by (apply Hdepth; by left). nia. }
      assert (0 <= foldr (fun uncle acc =>
                            (if decide (Coinbase uncle = addr)
                             then (Number uncle + 8 - Number header) * 1000000000000000000 / 8
                             else 0) + acc) 0 uncles).
      { apply IH. intros u Hu. apply Hdepth. by right. }
      destruct (decide (Coinbase uncle = addr)); lia. }
    assert (0 <= 1000000000000000000 / 32) by (apply Z.div_pos; lia).
    destruct (decide (Coinbase header = addr)); nia.
  - intros uncle Hold Hother. unfold accumulateRewards. cbv zeta.
    cbn [foldl rewardUncle].
    unfold distributePoSPoTRewards, getPoSAndPoTParticipants. cbn [foldl].
    rewrite !GetBalance_AddBalance. rewrite decide_True by done.
    rewrite decide_False by (intros Heq; by apply Hother).
    assert ((Number uncle + 8 - Number header) * 1000000000000000000 / 8 < 0); [|lia].
    apply Z.div_lt_upper_bound; lia.
Qed.

Lemma totalSupply_AddBalance (state : gmap Address Z) (addr : Address) (amount : Z) :
  totalSupply (AddBalance addr amount state) = totalSupply state + amount.
Proof.
  unfold AddBalance, GetBalance, totalSupply.
  assert (forall (j1 j2 : list byte) (z1 z2 y : Z), y + z2 + z1 = y + z1 + z2) as Hcomm
    by (intros; lia).
  destruct (state !! addr) as [balance|] eqn:Hl; simpl.
  - rewrite <- insert_delete_eq.
    rewrite (map_fold_insert_L _ 0 addr);
      [|intros; lia|apply lookup_delete_eq].
    rewrite (map_fold_delete_L _ 0 addr balance state); [lia|intros; lia|done].
  - rewrite (map_fold_insert_L _ 0 addr); [lia|intros; lia|done].
Qed.

(** X15: [accumulateRewards] adds to the sum of all balances exactly the block
    reward, a 32nd of it for each uncle, and each uncle's own reward. *)
Theorem accumulateRewards_issuance (config : ChainConfig) (state : gmap Address Z)
    (header : Header) (uncles : list Header) :
  totalSupply (accumulateRewards config state header uncles)
  = totalSupply state
    + 1000000000000000000
    + Z.of_nat (length uncles) * (1000000000000000000 / 32)
    + foldr (fun uncle acc =>
               (Number uncle + 8 - Number header) * 1000000000000000000 / 8 + acc) 0 uncles.
Proof.
  unfold accumulateRewards. cbv zeta.
  unfold distributePoSPoTRewards, getPoSAndPoTParticipants. cbn [foldl].
  assert (forall (state : gmap Address Z) (reward : Z),
             totalSupply (foldl (rewardUncle 1000000000000000000 1000000000000000000 header)
                            (state, reward) uncles).1
             = totalSupply state
               + foldr (fun uncle acc =>
                          (Number uncle + 8 - Number header) * 1000000000000000000 / 8 + acc)
                       0 uncles) as Hloop.
  { clear state. induction uncles as [|uncle uncles IH]; intros state reward.
    - simpl. lia.
    - cbn [foldl foldr]. unfold rewardUncle at 2. cbv zeta.
      rewrite IH, totalSupply_AddBalance. lia. }
  destruct (rewardUncle_loop 1000000000000000000 1000000000000000000 header uncles
              state 1000000000000000000) as [Hr _].
  specialize (Hloop state 1000000000000000000).
  destruct (foldl _ _ uncles) as [state' reward'] eqn:Eq. simpl in Hr, Hloop.
  rewrite totalSupply_AddBalance, Hloop, Hr. lia.
Qed.

(** X16: The share [calculateIndividualReward] computes never exceeds the total
    it is given, and is not negative when the participant's three factors
    and the total are not. *)
Theorem calculateIndividualReward_bounds (p : participant.Participant) (totalReward : Z) :
  calculateIndividualReward p totalReward <= totalReward
  /\ (0 <= participant.Stake p -> 0 <= participant.TransactionCount p ->
      0 <= participant.UptimePercentage p -> 0 <= totalReward ->
      0 <= calculateIndividualReward p totalReward).
Proof.
  unfold calculateIndividualReward. cbv zeta. split.
  - destruct (Z.ltb_spec totalReward
                (participant.Stake p * participant.TransactionCount p
                 * participant.UptimePercentage p / 10000)); lia.
  - intros Hs Ht Hu Hr.
    assert (0 <= participant.Stake p * participant.TransactionCount p
                 * participant.UptimePercentage p / 10000)
      by (apply Z.div_pos; [|lia]; apply Z.mul_nonneg_nonneg; [apply Z.mul_nonneg_nonneg|]; lia).
    destruct (Z.ltb_spec totalReward
                (participant.Stake p * participant.TransactionCount p
                 * participant.UptimePercentage p / 10000)); lia.
Qed.

(** ** More on the transaction registry *)

Lemma recordAll_snoc (calls : list (list byte * Z)) (c : list byte * Z) (t : pot.PoT) :
  pot.recordAll (calls ++ [c]) t = pot.RecordTransaction (pot.recordAll calls t) c.1 c.2.
Proof. unfold pot.recordAll. by rewrite foldl_app. Qed.

(** X17: The record of an address after any calls on a fresh registry: none if
    no call named the address; otherwise the address itself, the number of
    calls that named it (as a [uint64]), and the block number of the last of
    them. *)
Theorem RecordTransaction_history (calls : list (list byte * Z)) (address : Address) :
  pot.TransactionRecords (pot.recordAll calls pot.NewPoT) !! address
  = match last (filter (fun c => c.1 = address) calls) with
    | None => None
    | Some c =>
      Some (pot.mkTransactionRecord address
              (wrap64 (Z.of_nat (length (filter (fun c => c.1 = address) calls)))) c.2)
    end.
Proof.
  induction calls as [|c calls IH] using rev_ind; [done|].
  rewrite recordAll_snoc, filter_app. unfold pot.RecordTransaction.
  destruct (decide (c.1 = address)) as [Heq|Hne].
  - rewrite filter_cons_True by done. rewrite filter_nil, last_snoc, length_app. simpl.
    rewrite Heq. rewrite IH.
    destruct (last (filter (fun c => c.1 = address) calls)) as [prev|] eqn:Hlast.
    + simpl. rewrite lookup_insert_eq. f_equal. f_equal.
      rewrite wrap64_succ. f_equal. lia.
    + simpl. rewrite lookup_insert_eq. apply last_None in Hlast. rewrite Hlast. done.
  - rewrite filter_cons_False by done. rewrite filter_nil, app_nil_r.
    destruct (pot.TransactionRecords (pot.recordAll calls pot.NewPoT) !! c.1);
      simpl; by rewrite lookup_insert_ne.
Qed.

Lemma recorded_insert_new (records : gmap (list byte) pot.TransactionRecord) (address : Address)
    (record : pot.TransactionRecord) :
  records !! address = None ->
  map_fold (fun _ r acc => acc + pot.TransactionCount r) 0 (<[address := record]> records)
  = map_fold (fun _ r acc => acc + pot.TransactionCount r) 0 records
    + pot.TransactionCount record.
Proof. intros Hl. rewrite map_fold_insert_L; [done|intros; lia|done]. Qed.

Lemma recorded_insert_old (records : gmap (list byte) pot.TransactionRecord) (address : Address)
    (old record : pot.TransactionRecord) :
  records !! address = Some old ->
  map_fold (fun _ r acc => acc + pot.TransactionCount r) 0 (<[address := record]> records)
  = map_fold (fun _ r acc => acc + pot.TransactionCount r) 0 records
    - pot.TransactionCount old + pot.TransactionCount record.
Proof.
  intros Hl. rewrite <- insert_delete_eq.
  rewrite map_fold_insert_L; [|intros; lia|apply lookup_delete_eq].
  rewrite (map_fold_delete_L _ 0 address old records); [lia|intros; lia|done].
Qed.

Lemma recorded_bound (records : gmap (list byte) pot.TransactionRecord) :
  (forall a r, records !! a = Some r -> 0 <= pot.TransactionCount r) ->
  forall a r, records !! a = Some r ->
    pot.TransactionCount r
    <= map_fold (fun _ r acc => acc + pot.TransactionCount r) 0 records.
Proof.
  induction records as [|k v m Hk Hfold IH] using map_first_key_ind; intros Hpos a r Hl.
  - by rewrite lookup_empty in Hl.
  - rewrite recorded_insert_new by done.
    assert (forall a r, m !! a = Some r -> 0 <= pot.TransactionCount r) as Hpos'.
    { intros a' r' Hl'. apply (Hpos a'). rewrite lookup_insert_ne; [done|]. congruence. }
    assert (0 <= map_fold (fun _ r acc => acc + pot.TransactionCount r) 0 m) as Hsum.
    { clear -Hpos'. induction m as [|k v m Hk Hfold IH] using map_first_key_ind.
      - by rewrite map_fold_empty.
      - rewrite recorded_insert_new by done.
        assert (0 <= pot.TransactionCount v) by (apply (Hpos' k); by rewrite lookup_insert_eq).
        assert (0 <= map_fold (fun _ r acc => acc + pot.TransactionCount r) 0 m); [|lia].
        apply IH. intros a' r' Hl'. apply (Hpos' a'). rewrite lookup_insert_ne; [done|].
        congruence. }
    destruct (decide (k = a)) as [->|Hne].
    + rewrite lookup_insert_eq in Hl. inversion Hl; subst. lia.
    + rewrite lookup_insert_ne in Hl by done.
      assert (0 <= pot.TransactionCount v) by (apply (Hpos k); by rewrite lookup_insert_eq).
      specialize (IH Hpos' a r Hl). lia.
Qed.

(** X18: For fewer than 2^64 calls on a fresh registry, the counts of all
    records add up to the number of calls. *)
Theorem RecordTransaction_counts_every_call (calls : list (list byte * Z)) :
  Z.of_nat (length calls) < 2 ^ 64 ->
  pot.recordedTransactions (pot.recordAll calls pot.NewPoT) = Z.of_nat (length calls).
Proof.
  intros Hlen.
  assert (pot.recordedTransactions (pot.recordAll calls pot.NewPoT) = Z.of_nat (length calls)
          /\ forall a r,
              pot.TransactionRecords (pot.recordAll calls pot.NewPoT) !! a = Some r ->
              0 <= pot.TransactionCount r) as [H _]; [|done].
  induction calls as [|c calls IH] using rev_ind.
  - split; [done|]. intros a r Hl. simpl in Hl. by rewrite lookup_empty in Hl.
  - rewrite length_app in Hlen |- *. simpl in Hlen |- *.
    destruct IH as [Hsum Hpos]; [lia|].
    rewrite recordAll_snoc. unfold pot.recordedTransactions, pot.RecordTransaction in *.
    destruct (pot.TransactionRecords (pot.recordAll calls pot.NewPoT) !! c.1)
      as [old|] eqn:Hl; simpl.
    + pose proof (recorded_bound _ Hpos _ _ Hl) as Hle.
      pose proof (Hpos _ _ Hl) as Hold.
      rewrite (recorded_insert_old _ _ old) by done. simpl.
      rewrite (wrap64_small (pot.TransactionCount old + 1)) by lia.
      split; [lia|].
      intros a r Hr. destruct (decide (c.1 = a)) as [<-|Hne].
      * rewrite lookup_insert_eq in Hr. inversion Hr; subst. cbn [pot.TransactionCount]. lia.
      * rewrite lookup_insert_ne in Hr by done. eauto.
    + rewrite recorded_insert_new by done. simpl. split; [lia|].
      intros a r Hr. destruct (decide (c.1 = a)) as [<-|Hne].
      * rewrite lookup_insert_eq in Hr. inversion Hr; subst. simpl. lia.
      * rewrite lookup_insert_ne in Hr by done. eauto.
Qed.

(** ** The trust registry *)

Lemma trust_updateAll_snoc (calls : list (list byte * Z * Z)) (c : list byte * Z * Z)
    (t : trust.ProofOfTrust) :
  trust.updateAll (calls ++ [c]) t
  = trust.UpdateTrust (trust.updateAll calls t) c.1.1 c.1.2 c.2.
Proof. unfold trust.updateAll. by rewrite foldl_app. Qed.

(** X19: The record of an address after any calls of [UpdateTrust] on a fresh
    registry: none if no call named the address; otherwise the address
    itself with the uptime and the block number of the last call that named
    it, whatever the calls before. *)
Theorem UpdateTrust_last_write_wins (calls : list (list byte * Z * Z)) (address : Address) :
  trust.TrustRecords (trust.updateAll calls trust.NewProofOfTrust) !! address
  = match last (filter (fun c => c.1.1 = address) calls) with
    | None => None
    | Some c => Some (trust.mkTrustRecord address c.1.2 c.2)
    end.
Proof.
  induction calls as [|c calls IH] using rev_ind; [done|].
  rewrite trust_updateAll_snoc, filter_app. unfold trust.UpdateTrust.
  destruct (decide (c.1.1 = address)) as [Heq|Hne].
  - rewrite filter_cons_True by done. rewrite filter_nil, last_snoc.
    rewrite Heq. rewrite IH.
    destruct (last (filter (fun c => c.1.1 = address) calls)) as [prev|] eqn:Hlast;
      simpl; by rewrite lookup_insert_eq.
  - rewrite filter_cons_False by done. rewrite filter_nil, app_nil_r.
    destruct (trust.TrustRecords (trust.updateAll calls trust.NewProofOfTrust) !! c.1.1);
      simpl; by rewrite lookup_insert_ne.
Qed.

(** ** More on the stake registry *)

Lemma pos_updateAll_app (calls1 calls2 : list (list byte * positive * Z)) :
  forall (p : pos.PoS) (h : gmap positive Z),
    pos.updateAll (calls1 ++ calls2) p h
    = match pos.updateAll calls1 p h with
      | Some (p', h') => pos.updateAll calls2 p' h'
      | None => None
      end.
Proof.
  induction calls1 as [|[[a q] n] calls1 IH]; intros p h; [done|].
  cbn [app pos.updateAll].
  destruct (pos.UpdateValidator p a q n h) as [[p' h']|]; [apply IH|done].
Qed.

(** The validators after any calls on a fresh registry, with the
    ownership that goes with them. *)
Lemma updateAll_history (h0 : gmap positive Z)
    (calls : list (list byte * positive * Z)) :
  (forall c, c ∈ calls -> is_Some (h0 !! c.1.2)) ->
  exists p h,
    pos.updateAll calls (pos.NewPoS h0).1 (pos.NewPoS h0).2 = Some (p, h)
    /\ pos.owned h0 p h
    /\ forall address,
        pos.Validators p !! address
        = match head (filter (fun c => c.1.1 = address) calls),
                last (filter (fun c => c.1.1 = address) calls) with
          | Some first, Some latest =>
            Some (pos.mkValidator address first.1.2 latest.2 0 true)
          | _, _ => None
          end.
Proof.
  induction calls as [|[[a q] n] calls IH] using rev_ind; intros Hvalid.
  - destruct (NewPoS_owned h0) as (Hown & Hempty & _).
    eexists _, _. split; [reflexivity|]. split; [done|].
    intros address. rewrite Hempty. by rewrite lookup_empty.
  - destruct IH as (p & h & Hrun & Hown & Hlook).
    { intros c Hc. apply Hvalid. set_solver. }
    assert (is_Some (h0 !! q)) as Hq.
    { apply (Hvalid (a, q, n)). set_solver. }
    destruct (UpdateValidator_owned h0 h p a q n Hown Hq) as (p' & h' & Hcall & Hown' & _).
    exists p', h'. rewrite pos_updateAll_app, Hrun. cbn [pos.updateAll]. rewrite Hcall.
    split; [done|]. split; [done|].
    intros address. rewrite filter_app.
    destruct (UpdateValidator_shape _ _ _ _ _ _ _ Hcall) as [_ Hshape].
    destruct (decide (a = address)) as [<-|Hne].
    + rewrite (filter_cons_True (fun c => c.1.1 = a)) by done.
      rewrite filter_nil, head_snoc, last_snoc.
      rewrite (Hlook a) in Hshape.
      destruct (head (filter (fun c => c.1.1 = a) calls)) as [first|] eqn:Hhead.
      * destruct (last (filter (fun c => c.1.1 = a) calls)) as [latest|] eqn:Hlast.
        -- destruct Hshape as [-> _]. by rewrite lookup_insert_eq.
        -- apply last_None in Hlast. by rewrite Hlast in Hhead.
      * destruct Hshape as [-> _]. by rewrite lookup_insert_eq.
    + rewrite (filter_cons_False (fun c => c.1.1 = address)) by (simpl; congruence).
      rewrite filter_nil, app_nil_r. rewrite <- Hlook.
      destruct (pos.Validators p !! a); destruct Hshape as [-> _];
        by rewrite lookup_insert_ne.
Qed.

(** X20: The validator of an address after any calls on a fresh registry, the
    stakes being the caller's own numbers: none if no call named the
    address; otherwise an active validator of that address that holds the
    pointer of the first call that named it and the block number of the last
    one. *)
Theorem UpdateValidator_history (h0 : gmap positive Z)
    (calls : list (list byte * positive * Z)) :
  (forall c, c ∈ calls -> is_Some (h0 !! c.1.2)) ->
  exists p h,
    pos.updateAll calls (pos.NewPoS h0).1 (pos.NewPoS h0).2 = Some (p, h)
    /\ forall address,
        pos.Validators p !! address
        = match head (filter (fun c => c.1.1 = address) calls),
                last (filter (fun c => c.1.1 = address) calls) with
          | Some first, Some latest =>
            Some (pos.mkValidator address first.1.2 latest.2 0 true)
          | _, _ => None
          end.
Proof.
  intros Hvalid.
  destruct (updateAll_history h0 calls Hvalid) as (p & h & Hrun & _ & Hlook).
  by exists p, h.
Qed.

(** X21: Two addresses registered with one and the same [big.Int] share it: a
    later call for the one adds to the stake of the other as well. *)
Theorem UpdateValidator_shared_stake (h0 h : gmap positive Z) (p : pos.PoS) (a b : Address)
    (shared more : positive) (n1 n2 n3 : Z) :
  pos.owned h0 p h ->
  pos.Validators p !! a = None ->
  pos.Validators p !! b = None ->
  a <> b ->
  is_Some (h0 !! shared) ->
  is_Some (h0 !! more) ->
  exists p1 h1 p2 h2 p3 h3,
    pos.UpdateValidator p a shared n1 h = Some (p1, h1)
    /\ pos.UpdateValidator p1 b shared n2 h1 = Some (p2, h2)
    /\ pos.UpdateValidator p2 a more n3 h2 = Some (p3, h3)
    /\ pos.stakeOf p3 h3 b = pos.stakeOf p2 h2 b + pos.value h2 more
    /\ pos.stakeOf p3 h3 a = pos.stakeOf p3 h3 b.
Proof.
  intros Hown Ha Hb Hab Hshared Hmore.
  destruct (UpdateValidator_owned h0 h p a shared n1 Hown Hshared)
    as (p1 & h1 & E1 & Hown1 & _).
  destruct (UpdateValidator_owned h0 h1 p1 b shared n2 Hown1 Hshared)
    as (p2 & h2 & E2 & Hown2 & _).
  destruct (UpdateValidator_owned h0 h2 p2 a more n3 Hown2 Hmore)
    as (p3 & h3 & E3 & Hown3 & _).
  exists p1, h1, p2, h2, p3, h3. split; [done|]. split; [done|]. split; [done|].
  destruct (UpdateValidator_shape _ _ _ _ _ _ _ E1) as [_ S1]. rewrite Ha in S1.
  destruct S1 as [V1 _].
  destruct (UpdateValidator_shape _ _ _ _ _ _ _ E2) as [_ S2].
  rewrite V1, lookup_insert_ne, Hb in S2 by done. destruct S2 as [V2 _].
  destruct (UpdateValidator_shape _ _ _ _ _ _ _ E3) as [_ S3].
  rewrite V2 in S3. rewrite lookup_insert_ne in S3 by (intros Heq; by apply Hab).
  rewrite lookup_insert_eq in S3.
  cbn [pos.Address pos.Stake pos.Uptime pos.IsValidator] in S3. destruct S3 as [V3 H3].
  unfold pos.stakeOf. rewrite V3, V2.
  rewrite (lookup_insert_ne _ a b) by done. rewrite !lookup_insert_eq. cbn [pos.Stake].
  split; [|done].
  rewrite H3. unfold pos.value at 1. by rewrite lookup_insert_eq.
Qed.

Lemma amounts_snoc (h0 : gmap positive Z) (l : list (list byte * positive * Z))
    (c : list byte * positive * Z) :
  foldr (fun c acc => pos.value h0 c.1.2 + acc) 0 (l ++ [c])
  = foldr (fun c acc => pos.value h0 c.1.2 + acc) 0 l + pos.value h0 c.1.2.
Proof. induction l as [|x l IH]; simpl; lia. Qed.

(** X22: With a [big.Int] of its own for every call, the stake of each address
    after any calls on a fresh registry is the sum of the amounts passed in
    the calls that named it. *)
Theorem UpdateValidator_separate_stakes (h0 : gmap positive Z)
    (calls : list (list byte * positive * Z)) :
  (forall c, c ∈ calls -> is_Some (h0 !! c.1.2)) ->
  NoDup (calls.*1.*2) ->
  exists p h,
    pos.updateAll calls (pos.NewPoS h0).1 (pos.NewPoS h0).2 = Some (p, h)
    /\ forall address,
        pos.stakeOf p h address
        = foldr (fun c acc => pos.value h0 c.1.2 + acc) 0
                (filter (fun c => c.1.1 = address) calls).
Proof.
  intros Hvalid Hnodup.
  assert (exists p h,
             pos.updateAll calls (pos.NewPoS h0).1 (pos.NewPoS h0).2 = Some (p, h)
             /\ (forall q, q ∉ calls.*1.*2 -> is_Some (h0 !! q) -> h !! q = h0 !! q)
             /\ forall address,
                 pos.stakeOf p h address
                 = foldr (fun c acc => pos.value h0 c.1.2 + acc) 0
                         (filter (fun c => c.1.1 = address) calls))
    as (p & h & Hrun & _ & Hstakes); [|by exists p, h].
  induction calls as [|[[a q] n] calls IH] using rev_ind.
  - destruct (NewPoS_owned h0) as (Hown & Hempty & _).
    eexists _, _. split; [reflexivity|]. split.
    + intros q _ Hq. simpl. rewrite lookup_insert_ne; [done|].
      intros <-. destruct Hown as [Hfresh _]. simpl in Hfresh. rewrite Hfresh in Hq.
      by destruct Hq.
    + intros address. unfold pos.stakeOf. rewrite Hempty. by rewrite lookup_empty.
  - rewrite !fmap_app in Hnodup. simpl in Hnodup.
    apply NoDup_app in Hnodup as (Hnodup & Hfresh & _).
    assert (q ∉ calls.*1.*2) as Hq_new.
    { intros Hin. apply (Hfresh q Hin). by left. }
    destruct IH as (p & h & Hrun & Hkept & Hstakes); [|done|].
    { intros c Hc. apply Hvalid. set_solver. }
    destruct (updateAll_history h0 calls) as (p0 & h0' & Hrun0 & Hown & Hlook).
    { intros c Hc. apply Hvalid. set_solver. }
    rewrite Hrun in Hrun0. inversion Hrun0; subst p0 h0'. clear Hrun0.
    assert (is_Some (h0 !! q)) as Hq.
    { apply (Hvalid (a, q, n)). set_solver. }
    destruct (UpdateValidator_owned h0 h p a q n Hown Hq) as (p' & h' & Hcall & Hown' & _).
    exists p', h'. rewrite pos_updateAll_app, Hrun. cbn [pos.updateAll]. rewrite Hcall.
    split; [done|].
    destruct (UpdateValidator_shape _ _ _ _ _ _ _ Hcall) as [_ Hshape].
    destruct Hown as (Htotal_fresh & _ & _ & Hstake_own).
    assert (pos.value h q = pos.value h0 q) as Hamount.
    { unfold pos.value. by rewrite Hkept. }
    (* the pointer a validator holds is the pointer of a call *)
    assert (forall address v, pos.Validators p !! address = Some v ->
               pos.Stake v ∈ calls.*1.*2
               /\ exists c, c ∈ calls /\ c.1.1 = address /\ c.1.2 = pos.Stake v) as Hptr.
    { intros address v Hv. rewrite Hlook in Hv.
      destruct (head (filter (fun c => c.1.1 = address) calls)) as [first|] eqn:Hhead; [|done].
      destruct (last (filter (fun c => c.1.1 = address) calls)); [|done].
      inversion Hv; subst v. simpl.
      apply head_Some_elem_of in Hhead. apply list_elem_of_filter in Hhead as [Haddr Hin].
      split.
      - apply list_elem_of_fmap. exists first.1. split; [done|].
        apply list_elem_of_fmap. by exists first.
      - by exists first. }
    split.
    + intros q' Hq' Hq0. rewrite !fmap_app in Hq'. simpl in Hq'.
      assert ((q' ∉ calls.*1.*2) /\ q' <> q) as [Hq'1 Hq'2] by set_solver.
      destruct (pos.Validators p !! a) as [v|] eqn:Hv; destruct Hshape as [_ ->].
      * destruct (Hptr a v Hv) as [Hin _].
        rewrite lookup_insert_ne by (intros <-; done). by apply Hkept.
      * rewrite lookup_insert_ne; [by apply Hkept|].
        intros <-. rewrite Htotal_fresh in Hq0. by destruct Hq0.
    + intros address. rewrite filter_app. unfold pos.stakeOf.
      destruct (decide (a = address)) as [<-|Hne].
      * rewrite (filter_cons_True (fun c => c.1.1 = a)) by done.
        rewrite filter_nil, amounts_snoc. simpl. rewrite <- Hstakes. unfold pos.stakeOf.
        destruct (pos.Validators p !! a) as [v|] eqn:Hv; destruct Hshape as [-> ->].
        -- rewrite lookup_insert_eq. simpl. unfold pos.value at 1.
           rewrite lookup_insert_eq. simpl. lia.
        -- rewrite lookup_insert_eq. simpl. unfold pos.value at 1.
           rewrite lookup_insert_ne.
           ++ fold (pos.value h q). lia.
           ++ intros <-. rewrite Htotal_fresh in Hq. by destruct Hq.
      * rewrite (filter_cons_False (fun c => c.1.1 = address)) by (simpl; congruence).
        rewrite filter_nil, app_nil_r. rewrite <- Hstakes. unfold pos.stakeOf.
        assert (pos.Validators p' !! address = pos.Validators p !! address) as ->.
        { destruct (pos.Validators p !! a); destruct Hshape as [-> _];
            by rewrite lookup_insert_ne. }
        destruct (pos.Validators p !! address) as [w|] eqn:Hw; [|done].
        destruct (Hptr address w Hw) as (Hw_in & cw & Hcw & Hcw_addr & Hcw_ptr).
        destruct (pos.Validators p !! a) as [v|] eqn:Hv; destruct Hshape as [_ ->].
        -- destruct (Hptr a v Hv) as (Hv_in & cv & Hcv & Hcv_addr & Hcv_ptr).
           assert (pos.Stake v <> pos.Stake w) as Hdiff.
           { intros Heq. apply Hne. rewrite <- Hcv_addr, <- Hcw_addr.
             assert (cv = cw); [|by subst].
             assert (forall x y, x ∈ calls -> y ∈ calls -> x.1.2 = y.1.2 -> x = y) as Hinj.
             { clear -Hnodup. induction calls as [|c calls IH]; intros x y Hx Hy Hxy.
               - by apply elem_of_nil in Hx.
               - cbn [fmap list_fmap] in Hnodup. apply NoDup_cons in Hnodup as [Hc Hnodup].
                 apply elem_of_cons in Hx as [->|Hx]; apply elem_of_cons in Hy as [->|Hy].
                 + done.
                 + exfalso. apply Hc. rewrite Hxy.
                   apply list_elem_of_fmap. exists y.1. split; [done|].
                   apply list_elem_of_fmap. by exists y.
                 + exfalso. apply Hc. rewrite <- Hxy.
                   apply list_elem_of_fmap. exists x.1. split; [done|].
                   apply list_elem_of_fmap. by exists x.
                 + by apply IH. }
             apply Hinj; [done|done|congruence]. }
           unfold pos.value. by rewrite lookup_insert_ne.
        -- unfold pos.value. rewrite lookup_insert_ne; [done|].
           intros Heq. destruct (Hstake_own _ _ Hw) as [x Hx].
           rewrite <- Heq, Htotal_fresh in Hx. done.
Qed.

(** ** The batch of headers under any schedule *)

Section BatchAbort.

Local Open Scope nat_scope.

(** Once the coordinator has returned, nothing is sent on the results
    channel any more. *)
Lemma step_after_return (verify : nat -> option (option error)) (len : nat) (ev : event)
    (s s' : pool) :
  returned s = true ->
  step verify len ev s = Some s' ->
  returned s' = true /\ errorsOut s' = errorsOut s.
Proof.
  intros Hret. unfold step. destruct (panicked s); [done|].
  destruct ev as [w|w|w| |]; rewrite ?Hret; simpl; try done.
  - destruct (workers s !! w) as [[|index|]|]; try done.
    destruct (verify index) as [err|]; [|by intros [= <-]].
    destruct (store (errors s) index err); by intros [= <-].
  - destruct (workers s !! w) as [[|index|index]|]; try done.
    destruct (length (done s) <? length (workers s)); [|done]. by intros [= <-].
Qed.

Lemma run_after_return (verify : nat -> option (option error)) (len : nat)
    (sched : list event) :
  forall s s' : pool,
    returned s = true ->
    run verify len sched s = Some s' ->
    returned s' = true /\ errorsOut s' = errorsOut s.
Proof.
  induction sched as [|ev sched IH]; intros s s' Hret Hrun.
  - simpl in Hrun. by inversion Hrun; subst.
  - cbn [run] in Hrun. destruct (step verify len ev s) as [s1|] eqn:Hstep; [|done].
    destruct (step_after_return verify len ev s s1 Hret Hstep) as [Hret1 Hout1].
    destruct (IH s1 s' Hret1 Hrun) as [Hret' Hout']. split; [done|congruence].
Qed.

Lemma consistent_prefix (verify : nat -> option (option error)) (len : nat)
    (res : nat -> option error) (sched : list event) :
  (forall i, i < len -> verify i = Some (res i)) ->
  forall s s' : pool,
    consistent len res s ->
    run verify len sched s = Some s' ->
    exists k, k <= len /\ errorsOut s' = res <$> seq 0 k.
Proof.
  intros Hres. induction sched as [|ev sched IH]; intros s s' Hcons Hrun.
  - simpl in Hrun. inversion Hrun; subst s'.
    destruct (returned s) eqn:Hret.
    + exists len. split; [done|]. by apply (cons_returned _ _ _ Hcons).
    + destruct (cons_running _ _ _ Hcons Hret) as (Hlt & _ & Hout).
      exists (out s). split; [lia|done].
  - cbn [run] in Hrun. destruct (step verify len ev s) as [s1|] eqn:Hstep; [|done].
    destruct (decide (ev = Abort)) as [->|Hne].
    + unfold step in Hstep. rewrite (cons_panicked _ _ _ Hcons) in Hstep.
      destruct (returned s) eqn:Hret; [done|]. inversion Hstep; subst s1. clear Hstep.
      apply run_after_return in Hrun as [_ Hout]; [|done].
      simpl in Hout. rewrite Hout.
      destruct (cons_running _ _ _ Hcons Hret) as (Hlt & _ & Hout0).
      exists (out s). split; [lia|done].
    + destruct (consistent_step verify len res Hres ev s s1 Hcons Hne Hstep) as [Hcons1 _].
      by apply (IH s1 s').
Qed.

(** X23: Whatever the scheduler picks and whenever the caller aborts, what has
    been sent on the results channel is the results of the headers 0, 1, 2,
    ... in this order, one for each, never more than there are headers; and
    once the coordinator has returned, by itself or on an abort, nothing
    more is sent. *)
Theorem VerifyHeaders_any_schedule (E : Z) (ext : Externals) (ethash : Ethash)
    (chain : ChainReader) (headers : list Header) (seals : list bool) (unixNow : Z)
    (gomaxprocs : nat) (sched : list event) (s : pool) :
  length seals = length headers ->
  0 < gomaxprocs ->
  run (fun index => verifyHeaderWorker E ext ethash chain headers seals index unixNow)
      (length headers) sched (VerifyHeaders ethash gomaxprocs headers) = Some s ->
  length (errorsOut s) <= length headers
  /\ Some <$> errorsOut s
     = (fun index =>
          if bool_decide (PowMode ethash = ModeFullFake) then Some None
          else verifyHeaderWorker E ext ethash chain headers seals index unixNow)
       <$> seq 0 (length (errorsOut s))
  /\ (returned s = true ->
      forall later s',
        run (fun index => verifyHeaderWorker E ext ethash chain headers seals index unixNow)
            (length headers) later s = Some s' ->
        errorsOut s' = errorsOut s).
Proof.
  intros Hseals Hprocs Hrun.
  assert (returned s = true ->
          forall later s',
            run (fun index => verifyHeaderWorker E ext ethash chain headers seals index unixNow)
                (length headers) later s = Some s' ->
            errorsOut s' = errorsOut s) as Hfrozen.
  { intros Hret later s' Hlater. by eapply run_after_return. }
  enough (length (errorsOut s) <= length headers
          /\ Some <$> errorsOut s
             = (fun index =>
                  if bool_decide (PowMode ethash = ModeFullFake) then Some None
                  else verifyHeaderWorker E ext ethash chain headers seals index unixNow)
               <$> seq 0 (length (errorsOut s))) as [Hcount Horder] by done.
  clear Hfrozen.
  destruct (decide (PowMode ethash = ModeFullFake \/ headers = [])) as [Htrivial|Hreal].
  - assert (VerifyHeaders ethash gomaxprocs headers
            = mkPool [] true [] [] 0 0 [] (replicate (length headers) None) true false)
      as Hinit.
    { unfold VerifyHeaders. destruct Htrivial as [Hfake| ->].
      - by rewrite bool_decide_eq_true_2.
      - simpl. by destruct (bool_decide (PowMode ethash = ModeFullFake)). }
    rewrite Hinit in Hrun.
    apply run_after_return in Hrun as [_ Hout]; [|done]. simpl in Hout.
    rewrite Hout, length_replicate.
    split; [done|].
    rewrite fmap_replicate.
    destruct Htrivial as [Hfake| ->].
    + rewrite bool_decide_eq_true_2 by done. by rewrite constant_results.
    + done.
  - assert (PowMode ethash <> ModeFullFake /\ headers <> []) as [Hmode Hne].
    { split; intros H; apply Hreal; eauto. }
    rewrite bool_decide_eq_false_2 by done.
    set (verify := fun index =>
           verifyHeaderWorker E ext ethash chain headers seals index unixNow) in *.
    set (res := fun index => default None (verify index)).
    assert (forall i, i < length headers -> verify i = Some (res i)) as Hres.
    { intros i Hi. unfold res, verify.
      destruct (verifyHeaderWorker_in_range E ext ethash chain headers seals i unixNow
                  Hseals Hi) as [r ->]. done. }
    destruct (VerifyHeaders_consistent ethash gomaxprocs headers res Hmode Hne Hprocs)
      as [Hinit _].
    destruct (consistent_prefix verify (length headers) res sched Hres _ s Hinit Hrun)
      as (k & Hk & Hout).
    rewrite Hout, length_fmap, length_seq.
    split; [done|].
    by apply (emitted_results verify res (length headers)).
Qed.

End BatchAbort.

(** ** The seal at the lowest difficulty *)

Lemma SetBytes_bound (buf : list byte) :
  forall acc : Z,
    0 <= acc ->
    0 <= fold_left (fun acc b => acc * 256 + Z.of_N (Byte.to_N b)) buf acc
    < (acc + 1) * 256 ^ Z.of_nat (length buf).
Proof.
  induction buf as [|b buf IH]; intros acc Hacc.
  - simpl. lia.
  - cbn [fold_left length].
    pose proof (Byte.to_N_bounded b) as Hb.
    assert (0 <= Z.of_N (Byte.to_N b) <= 255) as Hb' by lia.
    destruct (IH (acc * 256 + Z.of_N (Byte.to_N b))) as [Hlo Hhi]; [lia|].
    split; [done|].
    rewrite Nat2Z.inj_succ, Z.pow_succ_r by lia.
    assert (0 < 256 ^ Z.of_nat (length buf)) by (apply Z.pow_pos_nonneg; lia).
    nia.
Qed.

(** X24: At difficulty one the target is [2^256] and no hash result of 32 bytes
    or fewer can miss it: outside the fake modes and without a shared
    engine, [verifySeal] accepts every such header whose mix digest is the
    computed one. *)
Theorem verifySeal_difficulty_one (ext : Externals) (mode : Mode) (fail : Z) (gen : Z -> bool)
    (header : Header) (fulldag : bool) (digest result : list byte) :
  isFake mode = false ->
  Difficulty header = 1 ->
  (if fulldag && gen (Uint64 (Number header))
   then hashimotoFull ext (Uint64 (Number header)) (SealHash ext header) (Nonce header)
   else hashimotoLight ext
          (if decide (mode = ModeTest) then 32 * 1024
           else datasetSize ext (Uint64 (Number header)))
          (Uint64 (Number header)) (SealHash ext header) (Nonce header))
  = (digest, result) ->
  digest = MixDigest header ->
  (length result <= 32)%nat ->
  verifySeal ext (mkEthash mode fail gen None) header fulldag = None.
Proof.
  intros Hfake Hd Hhash Hdigest Hlen. simpl. rewrite Hfake, Hd.
  change (1 <=? 0) with false. cbv iota.
  assert ((if fulldag
           then if gen (Uint64 (Number header))
                then Some (hashimotoFull ext (Uint64 (Number header))
                             (SealHash ext header) (Nonce header))
                else None
           else None) = (if fulldag && gen (Uint64 (Number header))
                         then Some (hashimotoFull ext (Uint64 (Number header))
                                      (SealHash ext header) (Nonce header))
                         else None)) as -> by (by destruct fulldag).
  destruct (fulldag && gen (Uint64 (Number header))); rewrite Hhash.
  all: unfold bytes_Equal; rewrite bool_decide_eq_true_2 by done; simpl.
  all: destruct (SetBytes_bound result 0) as [_ Hhi]; [lia|].
  all: fold (SetBytes result) in Hhi.
  all: assert (256 ^ Z.of_nat (length result) <= 256 ^ 32)
         by (apply Z.pow_le_mono_r; lia).
  all: assert (two256 / 1 = 256 ^ 32) as -> by reflexivity.
  all: by replace (256 ^ 32 <? SetBytes result) with false
         by (symmetry; apply Z.ltb_ge; lia).
Qed.

(** ** The properties above on sample data *)

Lemma CalcDifficultyFrontierU256_agrees_sample :
  CalcDifficultyFrontierU256 1013 lateBlock = calcDifficultyFrontier 1013 lateBlock.
Proof.
  apply CalcDifficultyFrontierU256_agrees.
  - simpl. lia.
  - lia.
  - simpl. lia.
  - simpl. lia.
  - vm_compute. reflexivity.
Defined.

Lemma CalcDifficultyHomesteadU256_agrees_sample :
  CalcDifficultyHomesteadU256 1013 lateBlock = calcDifficultyHomestead 1013 lateBlock.
Proof.
  apply CalcDifficultyHomesteadU256_agrees.
  - simpl. lia.
  - lia.
  - simpl. lia.
  - simpl. lia.
  - vm_compute. reflexivity.
Defined.

Lemma MakeDifficultyCalculatorU256_agrees_sample :
  MakeDifficultyCalculatorU256 3000000 1013 lateBlock
  = makeDifficultyCalculator 3000000 1013 lateBlock.
Proof.
  apply MakeDifficultyCalculatorU256_agrees.
  - lia.
  - simpl. lia.
  - lia.
  - simpl. lia.
  - simpl. lia.
  - vm_compute. reflexivity.
Defined.

Lemma calcDifficultyEthPoW_bounded_step_sample :
  calcDifficultyEthPoW 1013 lateBlock
  <= Z.max MinimumDifficulty (Difficulty lateBlock + 2 * (Difficulty lateBlock / 2048))
  /\ Z.max MinimumDifficulty (Difficulty lateBlock - 99 * (Difficulty lateBlock / 2048))
     <= calcDifficultyEthPoW 1013 lateBlock.
Proof.
  apply calcDifficultyEthPoW_bounded_step.
  - simpl. lia.
  - simpl. lia.
Defined.

Lemma CalcCustomDifficulty_monotone_sample :
  CalcCustomDifficulty 1000000000 forkAtFive 1013 lateBlock 1 2 3
  <= CalcCustomDifficulty 1000000000 forkAtFive 1013 lateBlock 4 5 6.
Proof. apply CalcCustomDifficulty_monotone; lia. Defined.

Lemma verifyHeader_accepted_sample :
  Z.of_nat (length (Extra uncle9)) <= MaximumExtraDataSize sampleExternals
  /\ (true = false -> Time uncle9 <= wrap64 (2000 + 15))
  /\ Time block8 < Time uncle9
  /\ Difficulty uncle9 = CalcDifficulty 1000000000 (Config twoBlocks) (Time uncle9) block8
  /\ GasUsed uncle9 <= GasLimit uncle9 <= MaxGasLimit sampleExternals
  /\ Number uncle9 = Number block8 + 1
  /\ (IsLondon (Config twoBlocks) (Number uncle9) = false ->
      BaseFee uncle9 = None
      /\ VerifyGaslimit sampleExternals (GasLimit block8) (GasLimit uncle9) = None)
  /\ (IsLondon (Config twoBlocks) (Number uncle9) = true ->
      VerifyEip1559Header sampleExternals (Config twoBlocks) block8 uncle9 = None)
  /\ (true = true -> verifySeal sampleExternals normalEngine uncle9 false = None)
  /\ VerifyDAOHeaderExtraData sampleExternals (Config twoBlocks) uncle9 = None
  /\ VerifyForkHashes sampleExternals (Config twoBlocks) uncle9 true = None.
Proof.
  apply (verifyHeader_accepted 1000000000 sampleExternals normalEngine twoBlocks
           uncle9 block8 true true 2000).
  vm_compute. reflexivity.
Defined.

Lemma Prepare_then_verify_sample :
  match GetHeader twoBlocks (ParentHash block10) (wrap64 (Uint64 (Number block10) - 1)) with
  | None => Prepare 1000000000 twoBlocks block10 = (block10, Some ErrUnknownAncestor)
  | Some parent =>
    exists prepared,
      Prepare 1000000000 twoBlocks block10 = (prepared, None)
      /\ prepared = setDifficulty block10 (Difficulty prepared)
      /\ Difficulty prepared
         = CalcDifficulty 1000000000 (Config twoBlocks) (Time prepared) parent
      /\ forall fulldag,
          verifySeal sampleExternals normalEngine prepared fulldag <> Some errInvalidDifficulty
  end.
Proof.
  apply (Prepare_then_verify 1000000000 sampleExternals normalEngine twoBlocks block10).
  lia.
Defined.

Lemma verifyHeaderWorker_VerifyHeader_sample :
  verifyHeaderWorker 1000000000 sampleExternals normalEngine twoBlocks
    (block10 :: [zeroDifficulty]) (true :: [true]) 0 2000
  = Some (VerifyHeader 1000000000 sampleExternals normalEngine twoBlocks block10 true 2000)
  /\ forall i previous header flag,
      (block10 :: [zeroDifficulty]) !! i = Some previous ->
      (block10 :: [zeroDifficulty]) !! S i = Some header ->
      (true :: [true]) !! S i = Some flag ->
      verifyHeaderWorker 1000000000 sampleExternals normalEngine twoBlocks
        (block10 :: [zeroDifficulty]) (true :: [true]) (S i) 2000
      = Some (if decide (HeaderHash sampleExternals previous = ParentHash header)
              then verifyHeader 1000000000 sampleExternals normalEngine twoBlocks header
                     previous false flag 2000
              else Some ErrUnknownAncestor).
Proof.
  apply (verifyHeaderWorker_VerifyHeader 1000000000 sampleExternals normalEngine twoBlocks
           block10 [zeroDifficulty] true [true] 2000).
  - discriminate.
  - reflexivity.
Defined.

Lemma VerifyUncles_accepted_sample :
  (length (Uncles (mkBlock block10 [uncle9])) <= 2)%nat
  /\ NoDup (HeaderHash sampleExternals <$> Uncles (mkBlock block10 [uncle9]))
  /\ forall uncle, uncle ∈ Uncles (mkBlock block10 [uncle9]) ->
      HeaderHash sampleExternals uncle
      <> HeaderHash sampleExternals (BlockHeader (mkBlock block10 [uncle9]))
      /\ ParentHash uncle <> ParentHash (BlockHeader (mkBlock block10 [uncle9]))
      /\ exists uncleParent,
          verifyHeader 1000000000 sampleExternals normalEngine twoBlocks uncle uncleParent
            true true 2000 = None
          /\ (uncleParent = BlockHeader (mkBlock block10 [uncle9])
              \/ exists n, GetHeader twoBlocks (ParentHash uncle) n = Some uncleParent).
Proof.
  apply (VerifyUncles_accepted 1000000000 sampleExternals normalEngine twoBlocks
           (mkBlock block10 [uncle9]) 2000).
  - discriminate.
  - vm_compute. reflexivity.
Defined.


Lemma accumulateRewards_frame_sample :
  GetBalance (accumulateRewards forkAtFive ∅ block10 [uncle9]) bob = GetBalance ∅ bob.
Proof.
  apply accumulateRewards_frame.
  - discriminate.
  - intros uncle Hin. apply list_elem_of_singleton in Hin as ->. discriminate.
Defined.

Lemma RecordTransaction_counts_every_call_sample :
  pot.recordedTransactions (pot.recordAll [(alice, 10); (bob, 10); (alice, 11)] pot.NewPoT)
  = Z.of_nat (length [(alice, 10); (bob, 10); (alice, 11)]).
Proof. apply RecordTransaction_counts_every_call. simpl. lia. Defined.

Lemma UpdateValidator_history_sample :
  exists p h,
    pos.updateAll sampleCalls (pos.NewPoS callerHeap).1 (pos.NewPoS callerHeap).2 = Some (p, h)
    /\ forall address,
        pos.Validators p !! address
        = match head (filter (fun c => c.1.1 = address) sampleCalls),
                last (filter (fun c => c.1.1 = address) sampleCalls) with
          | Some first, Some latest =>
            Some (pos.mkValidator address first.1.2 latest.2 0 true)
          | _, _ => None
          end.
Proof. exact (UpdateValidator_history callerHeap sampleCalls sampleCalls_stakes). Defined.

Lemma callerHeap_holds (q : positive) : q = 1%positive \/ q = 2%positive ->
  is_Some (callerHeap !! q).
Proof. intros [->| ->]; [exists 5|exists 3]; reflexivity. Defined.

Lemma UpdateValidator_shared_stake_sample :
  exists p1 h1 p2 h2 p3 h3,
    pos.UpdateValidator (pos.NewPoS callerHeap).1 alice 1%positive 10 (pos.NewPoS callerHeap).2
    = Some (p1, h1)
    /\ pos.UpdateValidator p1 bob 1%positive 11 h1 = Some (p2, h2)
    /\ pos.UpdateValidator p2 alice 2%positive 12 h2 = Some (p3, h3)
    /\ pos.stakeOf p3 h3 bob = pos.stakeOf p2 h2 bob + pos.value h2 2%positive
    /\ pos.stakeOf p3 h3 alice = pos.stakeOf p3 h3 bob.
Proof.
  apply (UpdateValidator_shared_stake callerHeap (pos.NewPoS callerHeap).2
           (pos.NewPoS callerHeap).1 alice bob 1%positive 2%positive 10 11 12).
  - apply NewPoS_owned.
  - reflexivity.
  - reflexivity.
  - discriminate.
  - apply callerHeap_holds. by left.
  - apply callerHeap_holds. by right.
Defined.

Lemma sampleCalls_separate : NoDup (sampleCalls.*1.*2).
Proof.
  simpl. apply NoDup_cons. split.
  - intros Hin. apply list_elem_of_singleton in Hin. discriminate.
  - apply NoDup_singleton.
Defined.

Lemma UpdateValidator_separate_stakes_sample :
  exists p h,
    pos.updateAll sampleCalls (pos.NewPoS callerHeap).1 (pos.NewPoS callerHeap).2 = Some (p, h)
    /\ forall address,
        pos.stakeOf p h address
        = foldr (fun c acc => pos.value callerHeap c.1.2 + acc) 0
                (filter (fun c => c.1.1 = address) sampleCalls).
Proof.
  exact (UpdateValidator_separate_stakes callerHeap sampleCalls sampleCalls_stakes
           sampleCalls_separate).
Defined.

Lemma VerifyHeaders_any_schedule_sample :
  (length (errorsOut afterAborted) <= length sampleBatch)%nat
  /\ Some <$> errorsOut afterAborted
     = (fun index =>
          if bool_decide (PowMode normalEngine = ModeFullFake) then Some None
          else verifyHeaderWorker 1000000000 sampleExternals normalEngine twoBlocks
                 sampleBatch [true; true] index 2000)
       <$> seq 0 (length (errorsOut afterAborted))
  /\ (returned afterAborted = true ->
      forall later s',
        run (fun index =>
               verifyHeaderWorker 1000000000 sampleExternals normalEngine twoBlocks
                 sampleBatch [true; true] index 2000)
            (length sampleBatch) later afterAborted = Some s' ->
        errorsOut s' = errorsOut afterAborted).
Proof.
  apply (VerifyHeaders_any_schedule 1000000000 sampleExternals normalEngine twoBlocks
           sampleBatch [true; true] 2000 2 aborted afterAborted).
  - reflexivity.
  - lia.
  - vm_compute. reflexivity.
Defined.

Lemma verifySeal_difficulty_one_sample :
  verifySeal sampleExternals (mkEthash ModeNormal 0 (fun _ => false) None) easiest false = None.
Proof.
  apply (verifySeal_difficulty_one sampleExternals ModeNormal 0 (fun _ => false) easiest false
           [x01]%byte [x02]%byte).
  - reflexivity.
  - reflexivity.
  - reflexivity.
  - reflexivity.
  - simpl. lia.
Defined.
